(** * postsass: dependency tracking and change invalidation

    A shallow embedding of [src/index.ts]: the module-level table
    [relationships], the tracker [relationTracker], the one-shot driver
    [compile] with its [dataListener], and the watch mode with its
    [changeHandler].

    Modelling conventions.
    - [relationships] is a JavaScript object used as a map from a path to an
      array of paths; it is a [gmap string (list string)].  The order of its
      keys is never observed by the code paths modelled here.  Keys are
      absolute file paths (sass reports absolute paths, the watcher is started
      on an absolute pattern), so the test [f in relationships] is the test
      for an own key; names inherited from [Object.prototype] are not paths.
    - Asynchronous functions are functions from a [State] to a [Completion]
      and a [State]: the state holds the table, the error collector, the
      outside world (file system), the log of effects and [process.exitCode].
    - Listeners run to completion one after another, in the order of their
      events; the interleaving of two listeners at their [await]s is not
      modelled. In [src/index.ts] an emitter drops the promise of an async
      listener, so a data listener under [params.debug] (which awaits its
      write) and a change handler (which awaits [compileFile]) may still be
      under way when the next event arrives or the pass ends. Statements
      that would depend on this are made for one listener, for
      [params.debug] off, or name the assumption.
    - The collaborators that live outside [src/index.ts] ([compileFile],
      [writeFile], [path.resolve]) are section variables. *)

From stdpp Require Import gmap strings list fin_maps.
From Stdlib Require Import ZArith.

(** ** Data *)

Inductive OutputStyle := compressed | expanded.

(** [Params]: the parameters passed in from the command. *)
Record Params := mkParams {
  context : string;
  dir : list string;
  outputStyle : OutputStyle;
  sourceMap : bool;
  watch : bool;
  debug : bool
}.

(** The sass options: the two the command line sets, and whatever else the
    config file carries. *)
Record SassOptions := mkSassOptions {
  sassOutputStyle : OutputStyle;
  sassSourceMap : bool;
  sassOther : list (string * string)
}.

Record PostsassConfig := mkPostsassConfig {
  postcss : option string;
  sass : SassOptions
}.

(** [EntryConfig]: the configuration for a single entry. *)
Record EntryConfig := mkEntryConfig {
  srcRelative : string;
  outRelative : string;
  src : string;
  out : string;
  postsassConfig : PostsassConfig
}.

(** A JavaScript exception; only its [message] is read. *)
Record JsError := mkJsError { message : string }.

(** [PostcssPipeResult], as far as [src/index.ts] reads it:
    [d.from], [d.to] and [d.sassResult.stats.includedFiles]. *)
Record SassStats := mkSassStats { includedFiles : list string }.
Record SassResult := mkSassResult { stats : SassStats }.
Record PostcssPipeResult := mkPostcssPipeResult {
  from : string;
  to : string;
  sassResult : SassResult
}.

(** ** The dependency table *)

(** [Array.prototype.indexOf] on an array of strings: the first index holding
    a strictly equal element, or [-1]. *)
Fixpoint indexOf (l : list string) (x : string) : Z :=
  match l with
  | [] => (-1)%Z
  | y :: l' =>
      if String.eqb y x then 0%Z
      else let i := indexOf l' x in if (i =? -1)%Z then (-1)%Z else (i + 1)%Z
  end.

(** The body of the [forEach] callback of [relationTracker], for the included
    file [f] of a unit compiled from [from_]. *)
Definition track (from_ : string) (rel : gmap string (list string)) (f : string)
  : gmap string (list string) :=
  match rel !! f with
  | None => <[f := [] ++ [from_]]> rel
  | Some deps =>
      if (indexOf deps from_ =? -1)%Z then <[f := deps ++ [from_]]> rel else rel
  end.

(** [relationTracker(d)]: track the dependency relations between files. *)
Definition relationTracker (d : PostcssPipeResult) (rel : gmap string (list string))
  : gmap string (list string) :=
  foldl (track (from d)) rel (includedFiles (stats (sassResult d))).

(** What [changeHandler] iterates over for a changed [path]:
    [Object.values(relationships[path])] under the guard
    [path in relationships], and nothing otherwise. *)
Definition dependentsOf (rel : gmap string (list string)) (path : string) : list string :=
  match rel !! path with
  | Some deps => deps
  | None => []
  end.

(** Appending an entry to an array of dependents unless it is there: what
    [track] does to the dependents of the file it is given. *)
Definition addDependent (from_ : string) (deps : list string) : list string :=
  if decide (from_ ∈ deps) then deps else deps ++ [from_].

(** One table extends another: no key and no dependent is lost. *)
Definition extends (rel rel' : gmap string (list string)) : Prop :=
  forall f : string,
    (is_Some (rel !! f) -> is_Some (rel' !! f)) /\
    (forall e : string, e ∈ dependentsOf rel f -> e ∈ dependentsOf rel' f).

(** The table after a sequence of recordings, starting from the empty table
    the module is loaded with. *)
Definition recorded (ds : list PostcssPipeResult) : gmap string (list string) :=
  foldl (fun rel d => relationTracker d rel) ∅ ds.

(** ** Entries *)

(** [d.split(":")] for one root mapping [source[:output]]. *)
Fixpoint splitColon (s : string) : list string :=
  match s with
  | EmptyString => [EmptyString]
  | String c s' =>
      if Ascii.eqb c (Ascii.ascii_of_nat 58) then EmptyString :: splitColon s'
      else match splitColon s' with
           | [] => [String c EmptyString]
           | h :: t => String c h :: t
           end
  end.

(** The entry configuration [compile] builds for one element of [params.dir];
    [resolve] stands for [path.resolve]. *)
Definition mkEntry (resolve : string -> string -> string) (params : Params)
    (config : PostsassConfig) (d : string) : EntryConfig :=
  let split := take 2 (splitColon d) in
  let src_ := default EmptyString (split !! 0%nat) in
  let out_ := default src_ (split !! 1%nat) in
  {| srcRelative := src_;
     outRelative := out_;
     src := resolve (context params) src_;
     out := resolve (context params) out_;
     postsassConfig := config |}.

(** ** Effects *)

(** The two kinds of debug file written under [_postsassDebug]:
    [relationships.json] with the whole table, and
    [relations/<basename of from>.json] with one unit's included files. *)
Inductive DebugFile :=
| RelationshipsJson (snapshot : gmap string (list string))
| RelationsJson (from_ : string) (included : list string).

(** What the console lines say; colours and the rewriting of absolute paths
    into relative ones for display are left out. *)
Inductive Message :=
| MsgOutputStyle (o : OutputStyle)
| MsgSourceMap (b : bool)
| MsgDirs (srcRel outRel : string)
| MsgCompiled (from_ to_ : string)
| MsgErrorOccured (msg : string)
| MsgStack
| MsgErrorsWhileCompiling
| MsgText (msg : string)
| MsgAllCompiled
| MsgGracefulShutdown
| MsgStartingWatchMode
| MsgWatching (srcRel : string)
| MsgRemoved (path : string)
| MsgFileChanged (path : string)
| MsgUpdatedFile (from_ : string)
| MsgErrorWhenCompiling (p msg : string)
| MsgNoConfig
| MsgException (e : JsError).

Inductive Effect :=
| ConsoleInfo (m : Message)
| ConsoleWarn (m : Message)
| ConsoleError (m : Message)
| CallCompileFile (p : string) (entry : EntryConfig)
| CallWriteFile (f : DebugFile)
| ImportChokidar
| WatchStarted (pattern : string)
| WatcherClosed (entry : EntryConfig)
| UnhandledRejection (e : JsError).

(** The recompiles attempted in a log: the arguments [p] of the calls
    [compileFile(p, entry)], in order. *)
Fixpoint recompiles (t : list Effect) : list string :=
  match t with
  | [] => []
  | CallCompileFile p _ :: t' => p :: recompiles t'
  | _ :: t' => recompiles t'
  end.

(** The lines written with [console.error]. *)
Fixpoint errorLines (t : list Effect) : list Message :=
  match t with
  | [] => []
  | ConsoleError m :: t' => m :: errorLines t'
  | _ :: t' => errorLines t'
  end.

(** Effects that only watch mode produces. *)
Definition isWatchEffect (e : Effect) : bool :=
  match e with
  | ImportChokidar | WatchStarted _ | WatcherClosed _ => true
  | ConsoleInfo MsgStartingWatchMode => true
  | _ => false
  end.

(** The write of the debug snapshot [relationships.json]. *)
Definition isSnapshotWrite (e : Effect) : bool :=
  match e with
  | CallWriteFile (RelationshipsJson _) => true
  | _ => false
  end.

(** ** Inputs from the outside *)

(** The result of importing [postsass.config.js]. *)
Inductive ConfigImport :=
| ConfigImportFails (e : JsError) (hasCode : bool)
| ConfigModule (postcssField : option string) (sassField : option SassOptions).

(** What the stream of one entry delivers for one unit: a [data] event, or,
    for a unit that failed to compile, nothing but an error in the collector. *)
Inductive StreamItem :=
| UnitCompiled (entry : EntryConfig) (d : PostcssPipeResult)
| UnitFailed (entry : EntryConfig) (e : JsError).

(** The one-shot pass as [await Promise.all(cbs)] sees it.
    - [PassRejects e]: the set-up of a stream throws inside the promise
      executor, the only way a promise of [cbs] is rejected ([reject] is never
      called). The rejection is handled before any stream delivers an item.
      With several roots the streams of the other roots go on delivering
      after [compile] has returned; that is outside this function.
    - [PassDrains items]: every stream delivers its items and ends.
    - [PassStalls items]: the streams deliver [items], and then one of them
      emits [error] (a directory that cannot be read) or never ends. The
      promise has no [error] listener and [reject] is never called, so
      [Promise.all] never settles. *)
Inductive Pass :=
| PassRejects (e : JsError)
| PassDrains (items : list StreamItem)
| PassStalls (items : list StreamItem).

Inductive WatchEvent :=
| EvReady
| EvUnlink (path : string)
| EvChange (path : string).

(** A watch session: whether chokidar can be imported, the events the
    watchers deliver, each with the entry of its watcher, and whether SIGINT
    arrives after them. *)
Record WatchSession := mkWatchSession {
  chokidarImport : option JsError;
  events : list (EntryConfig * WatchEvent);
  sigint : bool
}.

(** The units of a drained pass that compiled, in order of delivery. *)
Fixpoint successes (items : list StreamItem) : list PostcssPipeResult :=
  match items with
  | [] => []
  | UnitCompiled _ d :: items' => d :: successes items'
  | UnitFailed _ _ :: items' => successes items'
  end.

(** The errors of the units of a drained pass that failed. *)
Fixpoint failures (items : list StreamItem) : list JsError :=
  match items with
  | [] => []
  | UnitCompiled _ _ :: items' => failures items'
  | UnitFailed _ e :: items' => e :: failures items'
  end.

(** ** The state and asynchronous computations *)

Section Program.

Context {World : Type}.

(** [compileFile(p, entry)] of [./lib/compilerPipe]: reads the file system,
    writes the output, and resolves with the result or rejects. It is handed
    a path and an entry and nothing else: the table [relationships] is a
    constant local to [src/index.ts] and is out of its reach. *)
Variable compileFile : string -> EntryConfig -> World -> (JsError + PostcssPipeResult) * World.

(** [writeFile(path, content)] of [./lib/util/fs-util]: resolves, or rejects
    with an error. *)
Variable writeFile : DebugFile -> World -> option JsError * World.

(** [path.resolve]. *)
Variable resolve : string -> string -> string.

Record State := mkState {
  relationships : gmap string (list string);
  collector : list JsError;
  world : World;
  trace : list Effect;
  exitCode : option Z
}.

(** How an asynchronous function ends: its promise resolves, rejects, or
    never settles. *)
Inductive Completion (A : Type) :=
| Returned (a : A)
| Threw (e : JsError)
| Pending.

Definition Async (A : Type) : Type := State -> Completion A * State.

Definition ret {A : Type} (a : A) : Async A :=
  fun s => (Returned A a, s).

Definition throw {A : Type} (e : JsError) : Async A :=
  fun s => (Threw A e, s).

Definition pending {A : Type} : Async A :=
  fun s => (Pending A, s).

Definition bind {A B : Type} (m : Async A) (k : A -> Async B) : Async B :=
  fun s =>
    match m s with
    | (Returned _ a, s') => k a s'
    | (Threw _ e, s') => (Threw B e, s')
    | (Pending _, s') => (Pending B, s')
    end.

(** [try { m } catch (e) { h e }]. *)
Definition tryCatch {A : Type} (m : Async A) (h : JsError -> Async A) : Async A :=
  fun s =>
    match m s with
    | (Threw _ e, s') => h e s'
    | r => r
    end.

(** A call whose promise nobody awaits (a listener called by an event
    emitter): a rejection is not seen by the caller and surfaces as an
    unhandled rejection. *)
Definition detached (m : Async unit) : Async unit :=
  fun s =>
    match m s with
    | (Threw _ e, s') =>
        (Returned unit tt,
         mkState (relationships s') (collector s') (world s')
                 (trace s' ++ [UnhandledRejection e]) (exitCode s'))
    | (_, s') => (Returned unit tt, s')
    end.

Notation "'let*' x ':=' m 'in' k" := (bind m (fun x => k))
  (at level 10, x name, m at level 100, k at level 200).
Notation "m >> k" := (bind m (fun _ => k))
  (at level 100, k at level 200, right associativity).

(** [for (const x of l) { body x }], awaited step by step. *)
Fixpoint forOf {A : Type} (l : list A) (body : A -> Async unit) : Async unit :=
  match l with
  | [] => ret tt
  | x :: l' => body x >> forOf l' body
  end.

Definition emit (e : Effect) : Async unit :=
  fun s =>
    (Returned unit tt,
     mkState (relationships s) (collector s) (world s) (trace s ++ [e]) (exitCode s)).

Definition console_info (m : Message) : Async unit := emit (ConsoleInfo m).
Definition console_warn (m : Message) : Async unit := emit (ConsoleWarn m).
Definition console_error (m : Message) : Async unit := emit (ConsoleError m).

Definition getRelationships : Async (gmap string (list string)) :=
  fun s => (Returned _ (relationships s), s).

Definition updateRelationships (f : gmap string (list string) -> gmap string (list string))
  : Async unit :=
  fun s =>
    (Returned unit tt,
     mkState (f (relationships s)) (collector s) (world s) (trace s) (exitCode s)).

Definition setExitCode (n : Z) : Async unit :=
  fun s =>
    (Returned unit tt,
     mkState (relationships s) (collector s) (world s) (trace s) (Some n)).

(** [await compileFile(p, entry)]. *)
Definition awaitCompileFile (p : string) (entry : EntryConfig) : Async PostcssPipeResult :=
  fun s =>
    let '(r, w) := compileFile p entry (world s) in
    let s' := mkState (relationships s) (collector s) w
                      (trace s ++ [CallCompileFile p entry]) (exitCode s) in
    match r with
    | inl e => (Threw _ e, s')
    | inr d => (Returned _ d, s')
    end.

(** [await writeFile(...)]. *)
Definition awaitWriteFile (f : DebugFile) : Async unit :=
  fun s =>
    let '(r, w) := writeFile f (world s) in
    let s' := mkState (relationships s) (collector s) w
                      (trace s ++ [CallWriteFile f]) (exitCode s) in
    match r with
    | Some e => (Threw _ e, s')
    | None => (Returned _ tt, s')
    end.

(** Modelled from the spec: the error collector of
    [./lib/util/error-collector] and the failure path of [compilerPipe] are
    not in [src/index.ts]. A per-unit compile failure is recorded into the
    shared error collector and produces no [data] event. *)
Definition collectError (e : JsError) : Async unit :=
  fun s =>
    (Returned unit tt,
     mkState (relationships s) (collector s ++ [e]) (world s) (trace s) (exitCode s)).

(** Modelled from the spec: [getErrorCollector()] hands out the shared
    collector. *)
Definition getErrorCollector : Async (list JsError) :=
  fun s => (Returned _ (collector s), s).

(** Modelled from the spec: [errors.hasErrors()] says whether the collector
    holds one or more errors. *)
Definition hasErrors (errors : list JsError) : bool :=
  match errors with
  | [] => false
  | _ :: _ => true
  end.

(** ** The one-shot pass *)

(** [loadConfig(params)]: the command-line sass options win over those of
    the config file; a missing config file is only warned about. *)
Definition loadConfig (params : Params) (imp : ConfigImport) : Async PostsassConfig :=
  let sassCliConfig := mkSassOptions (outputStyle params) (sourceMap params) [] in
  match imp with
  | ConfigModule postcssField sassField =>
      ret (mkPostsassConfig postcssField
             (match sassField with
              | Some fileSass =>
                  mkSassOptions (outputStyle params) (sourceMap params) (sassOther fileSass)
              | None => sassCliConfig
              end))
  | ConfigImportFails e hasCode =>
      console_warn MsgNoConfig >>
      (if negb hasCode then console_error (MsgException e) else ret tt) >>
      ret (mkPostsassConfig None sassCliConfig)
  end.

(** [dataListener(params, entry)], applied to the result [d] of a [data]
    event. *)
Definition dataListener (params : Params) (entry : EntryConfig) (d : PostcssPipeResult)
  : Async unit :=
  console_info (MsgCompiled (from d) (to d)) >>
  (if debug params
   then awaitWriteFile (RelationsJson (from d) (includedFiles (stats (sassResult d))))
   else ret tt) >>
  (if watch params || debug params
   then updateRelationships (relationTracker d)
   else ret tt).

(** One item of a stream: a [data] event calls the listener, whose promise
    the emitter drops; a failed unit only reaches the collector.
    Without [params.debug] the listener has no [await] and is over when the
    emitter goes on. Under [params.debug] the listener waits for its write,
    and neither the stream nor the end of the pass waits for the listener:
    here the write is taken to be over before the next item. What is stated
    about the table during or right after a pass is therefore stated for one
    listener, or for [params.debug] off. *)
Definition streamItem (params : Params) (item : StreamItem) : Async unit :=
  match item with
  | UnitCompiled entry d => detached (dataListener params entry d)
  | UnitFailed _ e => collectError e
  end.

(** [await Promise.all(cbs)]: every entry announces its directories when its
    promise is created; then a promise rejects, or all streams end, or a
    stream stalls and the promises never settle. *)
Definition awaitAll (params : Params) (entries : list EntryConfig) (pass : Pass)
  : Async unit :=
  forOf entries (fun entry => console_info (MsgDirs (srcRelative entry) (outRelative entry))) >>
  match pass with
  | PassRejects e => throw e
  | PassDrains items => forOf items (streamItem params)
  | PassStalls items => forOf items (streamItem params) >> pending
  end.

(** ** Watch mode *)

(** The body of the loop of [changeHandler]: one recompile under
    [try]/[catch]. *)
Definition recompile (entry : EntryConfig) (p : string) : Async unit :=
  tryCatch
    (let* write := awaitCompileFile p entry in
     console_info (MsgUpdatedFile (from write)))
    (fun e => console_error (MsgErrorWhenCompiling p (message e))).

(** [changeHandler(entry)], applied to the changed [path]. *)
Definition changeHandler (entry : EntryConfig) (path : string) : Async unit :=
  console_info (MsgFileChanged path) >>
  let* rel := getRelationships in
  match rel !! path with
  | Some deps => forOf deps (recompile entry)
  | None => ret tt
  end.

(** The listeners [enableWatchMode] registers on the watcher of [entry].
    The emitter drops the promise of the change handler; here the handler
    is over before the next event is looked at. *)
Definition watchEvent (entry : EntryConfig) (ev : WatchEvent) : Async unit :=
  match ev with
  | EvReady => console_info (MsgWatching (srcRelative entry))
  | EvUnlink path => console_info (MsgRemoved path)
  | EvChange path => detached (changeHandler entry path)
  end.

(** [enableWatchMode(params, entries)]: one watcher per entry; the promise of
    a watcher resolves when SIGINT has closed it. Without entries there is
    nothing to wait for. *)
Definition enableWatchMode (params : Params) (entries : list EntryConfig)
    (session : WatchSession) : Async unit :=
  tryCatch
    (emit ImportChokidar >>
     match chokidarImport session with Some e => throw e | None => ret tt end >>
     console_info MsgStartingWatchMode >>
     forOf entries (fun entry =>
       emit (WatchStarted (resolve (resolve (context params) (srcRelative entry)) "**/*.scss"))) >>
     match entries with
     | [] => ret tt
     | _ :: _ =>
         forOf (events session) (fun ev => watchEvent (fst ev) (snd ev)) >>
         if sigint session
         then forOf entries (fun entry => emit (WatcherClosed entry))
         else pending
     end)
    (fun e => console_error (MsgException e)).

(** ** [compile(params)] *)

Definition compile (params : Params) (imp : ConfigImport) (pass : Pass)
    (session : WatchSession) : Async unit :=
  console_info (MsgOutputStyle (outputStyle params)) >>
  console_info (MsgSourceMap (sourceMap params)) >>
  let* config := loadConfig params imp in
  let entries := map (mkEntry resolve params config) (dir params) in
  let* drained :=
    tryCatch
      (awaitAll params entries pass >> ret true)
      (fun e =>
         console_error (MsgErrorOccured (message e)) >>
         console_error MsgStack >>
         setExitCode 1 >>
         ret false) in
  if negb drained then ret tt
  else
    let* errors := getErrorCollector in
    if hasErrors errors then
      console_error MsgErrorsWhileCompiling >>
      forOf errors (fun e => console_error (MsgText (message e))) >>
      setExitCode 2
    else
      (if debug params
       then let* rel := getRelationships in awaitWriteFile (RelationshipsJson rel)
       else ret tt) >>
      console_info MsgAllCompiled >>
      if watch params then
        enableWatchMode params entries session >>
        console_info MsgGracefulShutdown >>
        setExitCode 0
      else ret tt.

(** The part of [compile] after the [try]/[catch] around
    [await Promise.all(cbs)]: the check of the error collector, the debug
    snapshot and watch mode. *)
Definition reportAndWatch (params : Params) (entries : list EntryConfig)
    (session : WatchSession) : Async unit :=
  let* errors := getErrorCollector in
  if hasErrors errors then
    console_error MsgErrorsWhileCompiling >>
    forOf errors (fun e => console_error (MsgText (message e))) >>
    setExitCode 2
  else
    (if debug params
     then let* rel := getRelationships in awaitWriteFile (RelationshipsJson rel)
     else ret tt) >>
    console_info MsgAllCompiled >>
    if watch params then
      enableWatchMode params entries session >>
      console_info MsgGracefulShutdown >>
      setExitCode 0
    else ret tt.

(** The [catch] branch of [compile]. *)
Definition reportFatal (e : JsError) : Async unit :=
  console_error (MsgErrorOccured (message e)) >>
  console_error MsgStack >>
  setExitCode 1.

(** ** Relations between the state before and after a computation *)

(** A computation keeps a relation [R] when every state is related to the
    state the computation leaves. *)
Definition keeps {A : Type} (R : State -> State -> Prop) (m : Async A) : Prop :=
  forall s : State, R s (snd (m s)).

(** A computation that always resolves. *)
Definition resolves (m : Async unit) : Prop :=
  forall s : State, fst (m s) = Returned unit tt.

(** The table only grows. *)
Definition tableExtends (s s' : State) : Prop :=
  extends (relationships s) (relationships s').

(** [process.exitCode] is left alone. *)
Definition exitKept (s s' : State) : Prop :=
  exitCode s' = exitCode s.

(** The error collector is left alone. *)
Definition collectorKept (s s' : State) : Prop :=
  collector s' = collector s.

(** The log grows by effects that are neither watch-mode effects nor the
    write of the debug snapshot. *)
Definition quiet (s s' : State) : Prop :=
  exists t : list Effect,
    trace s' = trace s ++ t /\
    Forall (fun e => isWatchEffect e = false /\ isSnapshotWrite e = false) t.

(** The part of [compile] up to the point where [await Promise.all(cbs)]
    settles: the cold build. *)
Definition coldBuild (params : Params) (imp : ConfigImport) (pass : Pass) : Async unit :=
  console_info (MsgOutputStyle (outputStyle params)) >>
  console_info (MsgSourceMap (sourceMap params)) >>
  let* config := loadConfig params imp in
  awaitAll params (map (mkEntry resolve params config) (dir params)) pass.

(** Whether the write of [relationships.json], if [params.debug] asks for
    one, goes through in the state [s]. *)
Definition snapshotWritten (params : Params) (s : State) : bool :=
  if debug params then
    match fst (writeFile (RelationshipsJson (relationships s)) (world s)) with
    | None => true
    | Some _ => false
    end
  else true.

(** Whether the promise of [enableWatchMode] settles: the import of chokidar
    fails, or there is no watcher to wait for, or SIGINT closes them. *)
Definition watchResolves {A : Type} (session : WatchSession) (watchers : list A) : bool :=
  match chokidarImport session with
  | Some _ => true
  | None => match watchers with [] => true | _ :: _ => sigint session end
  end.

(** The line [recompile] logs after the call of [compileFile] in the world
    [w]. *)
Definition recompileLine (entry : EntryConfig) (p : string) (w : World) : Effect :=
  match fst (compileFile p entry w) with
  | inr write => ConsoleInfo (MsgUpdatedFile (from write))
  | inl e => ConsoleError (MsgErrorWhenCompiling p (message e))
  end.

(** The state after [recompile entry p] in the state [s]. *)
Definition recompiled (entry : EntryConfig) (p : string) (s : State) : State :=
  mkState (relationships s) (collector s) (snd (compileFile p entry (world s)))
          (trace s ++ [CallCompileFile p entry; recompileLine entry p (world s)])
          (exitCode s).

(** The state after the loop of [changeHandler] over the dependents [deps]. *)
Definition recompiledAll (entry : EntryConfig) (deps : list string) (s : State) : State :=
  foldl (fun s' p => recompiled entry p s') s deps.

End Program.

Arguments Returned {A} a.
Arguments Threw {A} e.
Arguments Pending {A}.

(** ** A small project, for examples

    One root [styles:dist] with the entry [app.scss]; the world is trivial. *)

Definition appScss : string := "/p/styles/app.scss".
Definition basePart : string := "/p/styles/_base.scss".
Definition newPart : string := "/p/styles/_new.scss".
Definition otherScss : string := "/p/styles/other.scss".

Definition unitOf (from_ : string) (included : list string) : PostcssPipeResult :=
  mkPostcssPipeResult from_ "/p/dist/out.css" (mkSassResult (mkSassStats included)).

Definition demoConfig : PostsassConfig :=
  mkPostsassConfig None (mkSassOptions expanded false []).

Definition demoEntry : EntryConfig :=
  mkEntryConfig "styles" "dist" "/p/styles" "/p/dist" demoConfig.

Definition demoParams (watch_ debug_ : bool) : Params :=
  mkParams "/p" ["styles:dist"] expanded false watch_ debug_.

Definition demoResolve (a b : string) : string := a +:+ "/" +:+ b.

(** Every write goes through. *)
Definition writeOk (f : DebugFile) (w : unit) : option JsError * unit := (None, w).

(** [app.scss] compiles and now includes [_new.scss] as well; every other
    file fails to compile. *)
Definition compileDemo (p : string) (entry : EntryConfig) (w : unit)
  : (JsError + PostcssPipeResult) * unit :=
  if String.eqb p appScss
  then (inr (unitOf appScss [appScss; basePart; newPart]), w)
  else (inl (mkJsError "Undefined variable"), w).

Definition demoState (rel : gmap string (list string)) : @State unit :=
  mkState rel [] tt [] None.

Definition demoSession (evs : list (EntryConfig * WatchEvent)) : WatchSession :=
  mkWatchSession None evs true.

(** ** Further observations and inputs *)

(** Whether a root mapping holds a colon. *)
Fixpoint hasColon (s : string) : bool :=
  match s with
  | EmptyString => false
  | String c s' => Ascii.eqb c (Ascii.ascii_of_nat 58) || hasColon s'
  end.

(** The debug files a log shows written (or tried), in order. *)
Fixpoint debugWrites (t : list Effect) : list DebugFile :=
  match t with
  | [] => []
  | CallWriteFile f :: t' => f :: debugWrites t'
  | _ :: t' => debugWrites t'
  end.

(** The calls [compileFile(p, entry)] a log shows, with both arguments. *)
Fixpoint compileCalls (t : list Effect) : list (string * EntryConfig) :=
  match t with
  | [] => []
  | CallCompileFile p entry :: t' => (p, entry) :: compileCalls t'
  | _ :: t' => compileCalls t'
  end.

(** The recompiles a list of watcher events asks for under the table [rel]:
    for every change event, the dependents of the changed path, each paired
    with the entry of the watcher that saw the change. *)
Fixpoint changeTargets (rel : gmap string (list string))
    (evs : list (EntryConfig * WatchEvent)) : list (string * EntryConfig) :=
  match evs with
  | [] => []
  | (entry, EvChange path) :: evs' =>
      map (fun p => (p, entry)) (dependentsOf rel path) ++ changeTargets rel evs'
  | _ :: evs' => changeTargets rel evs'
  end.

(** The configuration [loadConfig] resolves with. *)
Definition configOf (params : Params) (imp : ConfigImport) : PostsassConfig :=
  match imp with
  | ConfigModule postcssField sassField =>
      mkPostsassConfig postcssField
        (mkSassOptions (outputStyle params) (sourceMap params)
           (match sassField with Some fileSass => sassOther fileSass | None => [] end))
  | ConfigImportFails _ _ =>
      mkPostsassConfig None (mkSassOptions (outputStyle params) (sourceMap params) [])
  end.

(** What [loadConfig] logs. *)
Definition configLog (imp : ConfigImport) : list Effect :=
  match imp with
  | ConfigModule _ _ => []
  | ConfigImportFails e hasCode =>
      ConsoleWarn MsgNoConfig :: (if hasCode then [] else [ConsoleError (MsgException e)])
  end.

(** The entries [compile] builds from [params.dir]. *)
Definition entriesOf (resolve : string -> string -> string) (params : Params)
    (imp : ConfigImport) : list EntryConfig :=
  map (mkEntry resolve params (configOf params imp)) (dir params).

(** What [compile] has logged when the streams start. *)
Definition startLog (resolve : string -> string -> string) (params : Params)
    (imp : ConfigImport) : list Effect :=
  [ConsoleInfo (MsgOutputStyle (outputStyle params));
   ConsoleInfo (MsgSourceMap (sourceMap params))] ++
  configLog imp ++
  map (fun entry => ConsoleInfo (MsgDirs (srcRelative entry) (outRelative entry)))
      (entriesOf resolve params imp).

(** What watch mode leaves alone: the table, the error collector, the exit
    code and the debug files. *)
Definition frozen {World : Type} (s s' : @State World) : Prop :=
  relationships s' = relationships s /\
  collector s' = collector s /\
  exitCode s' = exitCode s /\
  debugWrites (trace s') = debugWrites (trace s).

(** No call of [compileFile] is added to the log. *)
Definition callsKept {World : Type} (s s' : @State World) : Prop :=
  compileCalls (trace s') = compileCalls (trace s).

(** The state with [t] appended to the log. *)
Definition logged {World : Type} (s : @State World) (t : list Effect) : @State World :=
  mkState (relationships s) (collector s) (world s) (trace s ++ t) (exitCode s).

(** The patterns of the watchers a log shows started, in order. *)
Fixpoint watchPatterns (t : list Effect) : list string :=
  match t with
  | [] => []
  | WatchStarted pattern :: t' => pattern :: watchPatterns t'
  | _ :: t' => watchPatterns t'
  end.

(** No watcher is added to the log. *)
Definition patternsKept {World : Type} (s s' : @State World) : Prop :=
  watchPatterns (trace s') = watchPatterns (trace s).

(** Whether [enableWatchMode] starts watchers: chokidar is at hand and there
    is an entry to watch. *)
Definition watching (session : WatchSession) (entries : list EntryConfig) : bool :=
  match chokidarImport session, entries with
  | None, _ :: _ => true
  | _, _ => false
  end.

(** Every write is refused. *)
Definition writeRefused (f : DebugFile) (w : unit) : option JsError * unit :=
  (Some (mkJsError "EACCES"), w).

(** * Properties *)

(** ** The dependency table *)

Lemma indexOf_lower (l : list string) (x : string) : (-1 <= indexOf l x)%Z.
Proof.
  induction l as [|y l IH]; simpl; [lia|].
  destruct (String.eqb y x); [lia|].
  destruct (Z.eqb_spec (indexOf l x) (-1)%Z); lia.
Qed.

Lemma indexOf_absent (l : list string) (x : string) : indexOf l x = (-1)%Z <-> x ∉ l.
Proof.
  induction l as [|y l IH]; simpl.
  - split; [intros _; apply not_elem_of_nil | done].
  - destruct (String.eqb_spec y x) as [->|Hne].
    + split; [lia | intros H; exfalso; apply H; left].
    + pose proof (indexOf_lower l x) as Hlow.
      destruct (Z.eqb_spec (indexOf l x) (-1)%Z) as [Heq|Hneq].
      * split; [|done]. intros _ Hin.
        apply elem_of_cons in Hin as [->|Hin]; [done|]. by apply IH.
      * split; [lia|]. intros Hnin. exfalso. apply Hneq, IH.
        intros Hin. apply Hnin. by right.
Qed.

Lemma addDependent_elem (from_ : string) (deps : list string) :
  from_ ∈ addDependent from_ deps.
Proof.
  unfold addDependent. case_decide; [done|].
  apply elem_of_app. right. left.
Qed.

Lemma addDependent_keeps (from_ e : string) (deps : list string) :
  e ∈ deps -> e ∈ addDependent from_ deps.
Proof.
  unfold addDependent. case_decide; [done|].
  intros. apply elem_of_app. by left.
Qed.

Lemma addDependent_idem (from_ : string) (deps : list string) :
  addDependent from_ (addDependent from_ deps) = addDependent from_ deps.
Proof.
  pose proof (addDependent_elem from_ deps) as H.
  unfold addDependent at 1. by rewrite decide_True.
Qed.

Lemma dependentsOf_track (from_ f f' : string) (rel : gmap string (list string)) :
  dependentsOf (track from_ rel f) f' =
  if decide (f = f') then addDependent from_ (dependentsOf rel f')
  else dependentsOf rel f'.
Proof.
  unfold track, dependentsOf, addDependent.
  destruct (rel !! f) as [deps|] eqn:Hf.
  - destruct (Z.eqb_spec (indexOf deps from_) (-1)%Z) as [Habs|Hpres].
    + apply indexOf_absent in Habs.
      case_decide as Hff; subst.
      * rewrite lookup_insert_eq, Hf. by rewrite decide_False.
      * by rewrite lookup_insert_ne.
    + case_decide as Hff; subst; [|done].
      rewrite Hf. rewrite decide_True; [done|].
      destruct (decide (from_ ∈ deps)) as [|Hn]; [done|].
      by apply indexOf_absent in Hn.
  - case_decide as Hff; subst.
    + rewrite lookup_insert_eq, Hf. rewrite decide_False; [done|].
      apply not_elem_of_nil.
    + by rewrite lookup_insert_ne.
Qed.

Lemma key_track (from_ f f' : string) (rel : gmap string (list string)) :
  is_Some (track from_ rel f !! f') <-> f = f' \/ is_Some (rel !! f').
Proof.
  unfold track.
  destruct (rel !! f) as [deps|] eqn:Hf.
  - destruct (indexOf deps from_ =? -1)%Z.
    + rewrite lookup_insert_is_Some. destruct (decide (f = f')); tauto.
    + split; [by right|]. intros [->|H]; [by rewrite Hf|done].
  - rewrite lookup_insert_is_Some. destruct (decide (f = f')); tauto.
Qed.

Lemma dependentsOf_foldl_track (from_ f' : string) (files : list string)
    (rel : gmap string (list string)) :
  dependentsOf (foldl (track from_) rel files) f' =
  if decide (f' ∈ files) then addDependent from_ (dependentsOf rel f')
  else dependentsOf rel f'.
Proof.
  revert rel. induction files as [|f files IH]; intros rel; cbn [foldl].
  - destruct (decide (f' ∈ [])) as [Hin|_]; [by apply not_elem_of_nil in Hin | done].
  - rewrite IH, dependentsOf_track.
    destruct (decide (f = f')) as [->|Hne].
    + destruct (decide (f' ∈ f' :: files)) as [_|Hn]; [|exfalso; apply Hn; left].
      case_decide; [apply addDependent_idem | done].
    + destruct (decide (f' ∈ files)) as [Hin|Hnin];
        destruct (decide (f' ∈ f :: files)) as [Hin'|Hnin']; try done.
      * exfalso. apply Hnin'. by right.
      * apply elem_of_cons in Hin' as [->|Hin']; done.
Qed.

Lemma key_foldl_track (from_ f' : string) (files : list string)
    (rel : gmap string (list string)) :
  is_Some (foldl (track from_) rel files !! f') <-> f' ∈ files \/ is_Some (rel !! f').
Proof.
  revert rel. induction files as [|f files IH]; intros rel; cbn [foldl].
  - split; [by right|]. intros [H|H]; [by apply not_elem_of_nil in H | done].
  - rewrite IH, key_track, elem_of_cons. intuition (subst; auto).
Qed.

(** What one recording does to the dependents of a file. *)
Lemma dependentsOf_relationTracker (d : PostcssPipeResult) (f : string)
    (rel : gmap string (list string)) :
  dependentsOf (relationTracker d rel) f =
  if decide (f ∈ includedFiles (stats (sassResult d)))
  then addDependent (from d) (dependentsOf rel f)
  else dependentsOf rel f.
Proof. apply dependentsOf_foldl_track. Qed.

(** What one recording does to the keys. *)
Lemma key_relationTracker (d : PostcssPipeResult) (f : string)
    (rel : gmap string (list string)) :
  is_Some (relationTracker d rel !! f) <->
  f ∈ includedFiles (stats (sassResult d)) \/ is_Some (rel !! f).
Proof. apply key_foldl_track. Qed.

(** A table is determined by its keys and the dependents of each. *)
Lemma relationships_ext (rel1 rel2 : gmap string (list string)) :
  (forall f, is_Some (rel1 !! f) <-> is_Some (rel2 !! f)) ->
  (forall f, dependentsOf rel1 f = dependentsOf rel2 f) ->
  rel1 = rel2.
Proof.
  intros Hkey Hdep. apply map_eq. intros f.
  specialize (Hkey f). specialize (Hdep f). unfold dependentsOf in Hdep.
  destruct (rel1 !! f) as [d1|], (rel2 !! f) as [d2|]; subst; try done.
  - destruct Hkey as [H _]. by destruct H.
  - destruct Hkey as [_ H]. by destruct H.
Qed.

Lemma relationTracker_idem (d : PostcssPipeResult) (rel : gmap string (list string)) :
  relationTracker d (relationTracker d rel) = relationTracker d rel.
Proof.
  apply relationships_ext; intros f.
  - rewrite !key_relationTracker. tauto.
  - rewrite !dependentsOf_relationTracker.
    case_decide; [apply addDependent_idem | done].
Qed.

Lemma relationTracker_keeps_dependent (d : PostcssPipeResult) (f e : string)
    (rel : gmap string (list string)) :
  e ∈ dependentsOf rel f -> e ∈ dependentsOf (relationTracker d rel) f.
Proof.
  intros H. rewrite dependentsOf_relationTracker.
  case_decide; [by apply addDependent_keeps | done].
Qed.

Lemma relationTracker_keeps_key (d : PostcssPipeResult) (f : string)
    (rel : gmap string (list string)) :
  is_Some (rel !! f) -> is_Some (relationTracker d rel !! f).
Proof. intros H. apply key_relationTracker. by right. Qed.

(** *** The claims about the table *)

(** C4: [relationTracker] is idempotent: recording the same unit with the
    same included files a second time leaves the whole table as the first
    recording left it, so the dependents of every file, and their number,
    are the same. *)
Theorem C4_relationTracker_idempotent (d : PostcssPipeResult)
    (rel : gmap string (list string)) :
  relationTracker d (relationTracker d rel) = relationTracker d rel /\
  forall f : string,
    dependentsOf (relationTracker d (relationTracker d rel)) f =
      dependentsOf (relationTracker d rel) f /\
    length (dependentsOf (relationTracker d (relationTracker d rel)) f) =
      length (dependentsOf (relationTracker d rel) f).
Proof.
  split; [apply relationTracker_idem|].
  intros f. by rewrite relationTracker_idem.
Qed.

(** C5: fan-out. When two distinct entries both include [shared], and
    [shared] had no dependents before, then after both recordings the
    dependents of [shared] are exactly the two entries, the one recorded
    first coming first, whichever of the two that is. *)
Theorem C5_fan_out (dA dB : PostcssPipeResult) (shared : string)
    (rel : gmap string (list string)) :
  from dA <> from dB ->
  shared ∈ includedFiles (stats (sassResult dA)) ->
  shared ∈ includedFiles (stats (sassResult dB)) ->
  dependentsOf rel shared = [] ->
  dependentsOf (relationTracker dB (relationTracker dA rel)) shared = [from dA; from dB] /\
  dependentsOf (relationTracker dA (relationTracker dB rel)) shared = [from dB; from dA].
Proof.
  intros Hne HA HB Hrel.
  rewrite !dependentsOf_relationTracker, Hrel.
  rewrite !decide_True by done.
  unfold addDependent.
  rewrite (decide_False (P := from dA ∈ [])) by apply not_elem_of_nil.
  rewrite (decide_False (P := from dB ∈ [])) by apply not_elem_of_nil.
  cbn [app].
  rewrite (decide_False (P := from dB ∈ [from dA]))
    by (intros H; apply list_elem_of_singleton in H; congruence).
  rewrite (decide_False (P := from dA ∈ [from dB]))
    by (intros H; apply list_elem_of_singleton in H; congruence).
  done.
Qed.

(** *** Further properties of the table *)

Lemma elem_addDependent (e x : string) (deps : list string) :
  e ∈ addDependent x deps <-> e = x \/ e ∈ deps.
Proof.
  unfold addDependent. case_decide.
  - split; [by right | by intros [->|?]].
  - rewrite elem_of_app, list_elem_of_singleton. tauto.
Qed.

Lemma elem_relationTracker (d : PostcssPipeResult) (f e : string)
    (rel : gmap string (list string)) :
  e ∈ dependentsOf (relationTracker d rel) f <->
  e ∈ dependentsOf rel f \/ (from d = e /\ f ∈ includedFiles (stats (sassResult d))).
Proof.
  rewrite dependentsOf_relationTracker. case_decide.
  - rewrite elem_addDependent. intuition (subst; auto).
  - tauto.
Qed.

Lemma elem_foldl_relationTracker (ds : list PostcssPipeResult) (f e : string)
    (rel : gmap string (list string)) :
  e ∈ dependentsOf (foldl (fun rel' d => relationTracker d rel') rel ds) f <->
  e ∈ dependentsOf rel f \/
  exists d, d ∈ ds /\ from d = e /\ f ∈ includedFiles (stats (sassResult d)).
Proof.
  revert rel. induction ds as [|d ds IH]; intros rel; cbn [foldl].
  - split; [by left|]. intros [H|(d & Hd & _)]; [done|]. by apply not_elem_of_nil in Hd.
  - rewrite IH, elem_relationTracker. split.
    + intros [[H|H]|(d' & Hd' & H)]; [by left| |].
      * right. exists d. split; [left | done].
      * right. exists d'. split; [by right | done].
    + intros [H|(d' & Hd' & H)]; [by left; left|].
      apply elem_of_cons in Hd' as [->|Hd']; [by left; right|].
      right. by exists d'.
Qed.

Lemma key_foldl_relationTracker (ds : list PostcssPipeResult) (f : string)
    (rel : gmap string (list string)) :
  is_Some (foldl (fun rel' d => relationTracker d rel') rel ds !! f) <->
  is_Some (rel !! f) \/ exists d, d ∈ ds /\ f ∈ includedFiles (stats (sassResult d)).
Proof.
  revert rel. induction ds as [|d ds IH]; intros rel; cbn [foldl].
  - split; [by left|]. intros [H|(d & Hd & _)]; [done|]. by apply not_elem_of_nil in Hd.
  - rewrite IH, key_relationTracker. split.
    + intros [[H|H]|(d' & Hd' & H)]; [|by left|].
      * right. exists d. split; [left | done].
      * right. exists d'. split; [by right | done].
    + intros [H|(d' & Hd' & H)]; [by left; right|].
      apply elem_of_cons in Hd' as [->|Hd']; [by left; left|].
      right. by exists d'.
Qed.

(** The table is the reverse index of the recordings: [e] is a dependent of
    [f] exactly when some recorded unit was compiled from [e] and included
    [f]. *)
Theorem recorded_reverse_index (ds : list PostcssPipeResult) (f e : string) :
  e ∈ dependentsOf (recorded ds) f <->
  exists d, d ∈ ds /\ from d = e /\ f ∈ includedFiles (stats (sassResult d)).
Proof.
  unfold recorded. rewrite elem_foldl_relationTracker. split; [|by right].
  intros [H|H]; [|done]. unfold dependentsOf in H. rewrite lookup_empty in H.
  by apply not_elem_of_nil in H.
Qed.

(** The keys of the table are the files some recorded unit included, and a
    key never holds an empty array: a file is a key exactly when it has a
    dependent. *)
Theorem recorded_keys (ds : list PostcssPipeResult) (f : string) :
  (is_Some (recorded ds !! f) <->
   exists d, d ∈ ds /\ f ∈ includedFiles (stats (sassResult d))) /\
  (is_Some (recorded ds !! f) <-> dependentsOf (recorded ds) f <> []).
Proof.
  assert (Hkey : is_Some (recorded ds !! f) <->
                 exists d, d ∈ ds /\ f ∈ includedFiles (stats (sassResult d))).
  { unfold recorded. rewrite key_foldl_relationTracker. split; [|by right].
    intros [H|H]; [|done]. rewrite lookup_empty in H. by destruct H. }
  split; [done|]. split.
  - intros (d & Hd & Hf)%Hkey Hnil.
    assert (Hin : from d ∈ dependentsOf (recorded ds) f)
      by (apply elem_foldl_relationTracker; right; by exists d).
    rewrite Hnil in Hin. by apply not_elem_of_nil in Hin.
  - unfold dependentsOf. by destruct (recorded ds !! f).
Qed.

Lemma NoDup_addDependent (x : string) (deps : list string) :
  NoDup deps -> NoDup (addDependent x deps).
Proof.
  intros Hdeps. unfold addDependent. case_decide; [done|].
  apply NoDup_app. split; [done|]. split; [|apply NoDup_singleton].
  intros y Hy Hin. apply list_elem_of_singleton in Hin. by subst.
Qed.

Lemma NoDup_foldl_relationTracker (ds : list PostcssPipeResult) (f : string)
    (rel : gmap string (list string)) :
  NoDup (dependentsOf rel f) ->
  NoDup (dependentsOf (foldl (fun rel' d => relationTracker d rel') rel ds) f).
Proof.
  revert rel. induction ds as [|d ds IH]; intros rel Hrel; [done|].
  cbn [foldl]. apply IH. rewrite dependentsOf_relationTracker.
  case_decide; [by apply NoDup_addDependent | done].
Qed.

(** No entry is listed twice among the dependents of a file, however often
    and in whatever order units are recorded. *)
Theorem recorded_NoDup (ds : list PostcssPipeResult) (f : string) :
  NoDup (dependentsOf (recorded ds) f).
Proof.
  apply NoDup_foldl_relationTracker. unfold dependentsOf. rewrite lookup_empty.
  apply NoDup_nil_2.
Qed.

Lemma lookup_track_ne (from_ f f' : string) (rel : gmap string (list string)) :
  f <> f' -> track from_ rel f !! f' = rel !! f'.
Proof.
  intros Hne. unfold track. destruct (rel !! f) as [deps|].
  - destruct (indexOf deps from_ =? -1)%Z; [by rewrite lookup_insert_ne | done].
  - by rewrite lookup_insert_ne.
Qed.

(** Recording a unit leaves alone every file the unit did not include: its
    key, and its array of dependents, are what they were. *)
Theorem relationTracker_frame (d : PostcssPipeResult) (f : string)
    (rel : gmap string (list string)) :
  f ∉ includedFiles (stats (sassResult d)) ->
  relationTracker d rel !! f = rel !! f.
Proof.
  unfold relationTracker. generalize (includedFiles (stats (sassResult d))) as files.
  intros files. revert rel. induction files as [|f' files IH]; intros rel Hf; [done|].
  cbn [foldl]. rewrite IH.
  - apply lookup_track_ne. intros ->. apply Hf. left.
  - intros Hin. apply Hf. by right.
Qed.

(** Dependents are only ever appended: the array a file had before any
    number of further recordings is a prefix of the array it has after, so
    the order in which dependents were first seen never changes. *)
Theorem dependents_prefix (ds : list PostcssPipeResult) (f : string)
    (rel : gmap string (list string)) :
  dependentsOf rel f `prefix_of`
  dependentsOf (foldl (fun rel' d => relationTracker d rel') rel ds) f.
Proof.
  revert rel. induction ds as [|d ds IH]; intros rel; [done|].
  cbn [foldl]. etrans; [|apply IH].
  rewrite dependentsOf_relationTracker. case_decide; [|done].
  unfold addDependent. case_decide; [done | by apply prefix_app_r].
Qed.

Lemma addDependent_comm (a b : string) (deps : list string) :
  addDependent a (addDependent b deps) ≡ₚ addDependent b (addDependent a deps).
Proof.
  destruct (decide (a = b)) as [->|Hne]; [done|].
  unfold addDependent.
  repeat case_decide; try done;
    repeat match goal with
           | H : _ ∈ _ ++ [_] |- _ =>
               apply elem_of_app in H as [H|H%list_elem_of_singleton]
           | H : ¬ (_ ∈ _ ++ [_]) |- _ =>
               rewrite elem_of_app, list_elem_of_singleton in H
           end; try tauto; try congruence.
  rewrite <- !app_assoc. apply Permutation_app_head. apply perm_swap.
Qed.

(** The order of two recordings matters for the order of the dependents
    only: either order gives the same keys and, for every file, the same
    dependents up to a permutation. *)
Theorem relationTracker_order (dA dB : PostcssPipeResult) (f : string)
    (rel : gmap string (list string)) :
  (is_Some (relationTracker dA (relationTracker dB rel) !! f) <->
   is_Some (relationTracker dB (relationTracker dA rel) !! f)) /\
  dependentsOf (relationTracker dA (relationTracker dB rel)) f ≡ₚ
  dependentsOf (relationTracker dB (relationTracker dA rel)) f.
Proof.
  split.
  - rewrite !key_relationTracker. tauto.
  - rewrite !dependentsOf_relationTracker.
    repeat case_decide; try done. apply addDependent_comm.
Qed.

(** [indexOf] answers with a position inside the array or with [-1]; it
    answers [-1] exactly for an element that is not in the array, and
    otherwise with the first position that holds the element. *)
Theorem indexOf_first (l : list string) (x : string) :
  (-1 <= indexOf l x < Z.of_nat (length l))%Z /\
  (indexOf l x = (-1)%Z <-> x ∉ l) /\
  ((0 <= indexOf l x)%Z ->
   l !! Z.to_nat (indexOf l x) = Some x /\
   forall j : nat, (j < Z.to_nat (indexOf l x))%nat -> l !! j <> Some x).
Proof.
  split; [|split; [apply indexOf_absent|]].
  - induction l as [|y l IH]; cbn [indexOf length]; [lia|].
    destruct (String.eqb y x); [lia|].
    destruct (Z.eqb_spec (indexOf l x) (-1)%Z); lia.
  - induction l as [|y l IH]; cbn [indexOf]; [lia|].
    destruct (String.eqb_spec y x) as [->|Hne].
    + intros _. split; [done|]. intros j Hj. simpl in Hj. lia.
    + pose proof (indexOf_lower l x) as Hlow.
      destruct (Z.eqb_spec (indexOf l x) (-1)%Z) as [|Hfound]; [lia|].
      intros _. destruct IH as [Hat Hbefore]; [lia|].
      replace (Z.to_nat (indexOf l x + 1)) with (S (Z.to_nat (indexOf l x))) by lia.
      split; [done|]. intros [|j] Hj; cbn; [congruence|].
      apply Hbefore. lia.
Qed.

(** *** The entries [compile] builds *)

Lemma splitColon_free (s : string) :
  hasColon s = false -> splitColon s = [s].
Proof.
  induction s as [|c s IH]; [done|]. cbn [hasColon splitColon].
  intros [Hc Hs]%orb_false_elim. rewrite Hc, (IH Hs). done.
Qed.

Lemma splitColon_colon (a r : string) :
  hasColon a = false ->
  splitColon (a +:+ String (Ascii.ascii_of_nat 58) r) = a :: splitColon r.
Proof.
  induction a as [|c a IH]; intros Ha.
  - reflexivity.
  - cbn [hasColon] in Ha. apply orb_false_elim in Ha as [Hc Ha].
    change (String c a +:+ String (Ascii.ascii_of_nat 58) r)
      with (String c (a +:+ String (Ascii.ascii_of_nat 58) r)).
    cbn [splitColon].
    rewrite Hc, (IH Ha). done.
Qed.

(** A root mapping without a colon names the source, and the output
    defaults to the source: both relative and both resolved paths agree. *)
Theorem mkEntry_no_colon (resolve : string -> string -> string) (params : Params)
    (config : PostsassConfig) (d : string) :
  hasColon d = false ->
  mkEntry resolve params config d =
  mkEntryConfig d d (resolve (context params) d) (resolve (context params) d) config.
Proof. intros Hd. unfold mkEntry. by rewrite (splitColon_free d Hd). Qed.

(** A root mapping [a:b] gives the source [a] and the output [b], also when
    [b] is empty (the output is then the empty path, not the source);
    whatever follows a second colon is dropped. *)
Theorem mkEntry_colon (resolve : string -> string -> string) (params : Params)
    (config : PostsassConfig) (a b : string) :
  hasColon a = false ->
  hasColon b = false ->
  let entry := mkEntryConfig a b (resolve (context params) a)
                 (resolve (context params) b) config in
  mkEntry resolve params config (a +:+ ":" +:+ b) = entry /\
  forall c : string, mkEntry resolve params config (a +:+ ":" +:+ b +:+ ":" +:+ c) = entry.
Proof.
  intros Ha Hb. cbn zeta. unfold mkEntry. split.
  - change (a +:+ ":" +:+ b) with (a +:+ String (Ascii.ascii_of_nat 58) b).
    by rewrite (splitColon_colon a b Ha), (splitColon_free b Hb).
  - intros c.
    change (a +:+ ":" +:+ b +:+ ":" +:+ c)
      with (a +:+ String (Ascii.ascii_of_nat 58) (b +:+ String (Ascii.ascii_of_nat 58) c)).
    by rewrite (splitColon_colon a _ Ha), (splitColon_colon b c Hb).
Qed.

(** ** Asynchronous computations *)

Section Laws.

Context {World : Type}.
Variable compileFile : string -> EntryConfig -> World -> (JsError + PostcssPipeResult) * World.
Variable writeFile : DebugFile -> World -> option JsError * World.
Variable resolve : string -> string -> string.

Implicit Types s : @State World.

Local Abbreviation Comp := (@Async World).

Lemma state_eta s :
  mkState (relationships s) (collector s) (world s) (trace s) (exitCode s) = s.
Proof. by destruct s. Qed.

Lemma bind_returned {A B : Type} (m : Comp A) (k : A -> Comp B) s (a : A) s' :
  m s = (Returned a, s') -> bind m k s = k a s'.
Proof. unfold bind. by intros ->. Qed.

Lemma bind_resolves (m : Comp unit) (k : unit -> Comp unit) :
  resolves m -> (forall u, resolves (k u)) -> resolves (bind m k).
Proof.
  intros Hm Hk s. specialize (Hm s). unfold bind.
  destruct (m s) as [[[]| |] s']; simpl in Hm; try discriminate. apply Hk.
Qed.

Lemma forOf_resolves {A : Type} (l : list A) (body : A -> Comp unit) :
  (forall x, resolves (body x)) -> resolves (forOf l body).
Proof.
  intros Hbody. induction l as [|x l IH]; [done|].
  cbn [forOf]. apply bind_resolves; [apply Hbody | intros _; apply IH].
Qed.

Lemma detached_resolves (m : Comp unit) : resolves (detached m).
Proof. intros s. unfold detached. by destruct (m s) as [[| |] ?]. Qed.

Lemma emit_resolves (e : Effect) : resolves (World := World) (emit e).
Proof. done. Qed.

(** *** Relations kept by the combinators *)

Section Invariant.

Variable R : @State World -> @State World -> Prop.
Hypothesis R_refl : forall s, R s s.
Hypothesis R_trans : forall s1 s2 s3, R s1 s2 -> R s2 s3 -> R s1 s3.

Lemma keeps_ret {A : Type} (a : A) : keeps R (ret a : Comp A).
Proof. intros s. apply R_refl. Qed.

Lemma keeps_throw {A : Type} (e : JsError) : keeps R (throw e : Comp A).
Proof. intros s. apply R_refl. Qed.

Lemma keeps_pending {A : Type} : keeps R (pending : Comp A).
Proof. intros s. apply R_refl. Qed.

Lemma keeps_bind {A B : Type} (m : Comp A) (k : A -> Comp B) :
  keeps R m -> (forall a, keeps R (k a)) -> keeps R (bind m k).
Proof.
  intros Hm Hk s. specialize (Hm s). unfold bind.
  destruct (m s) as [[a|e|] s']; simpl in *; [|done|done].
  eapply R_trans; [exact Hm | apply Hk].
Qed.

Lemma keeps_tryCatch {A : Type} (m : Comp A) (h : JsError -> Comp A) :
  keeps R m -> (forall e, keeps R (h e)) -> keeps R (tryCatch m h).
Proof.
  intros Hm Hh s. specialize (Hm s). unfold tryCatch.
  destruct (m s) as [[a|e|] s']; simpl in *; [done| |done].
  eapply R_trans; [exact Hm | apply Hh].
Qed.

Lemma keeps_forOf {A : Type} (l : list A) (body : A -> Comp unit) :
  (forall x, keeps R (body x)) -> keeps R (forOf l body).
Proof.
  intros Hbody. induction l as [|x l IH]; [apply keeps_ret|].
  cbn [forOf]. apply keeps_bind; [apply Hbody | intros _; apply IH].
Qed.

Lemma keeps_detached (m : Comp unit) :
  keeps R m -> (forall e, keeps R (emit (UnhandledRejection e))) -> keeps R (detached m).
Proof.
  intros Hm He s. specialize (Hm s). unfold detached.
  destruct (m s) as [[a|e|] s']; simpl in *; [done| |done].
  eapply R_trans; [exact Hm | apply (He e s')].
Qed.

Lemma keeps_getRelationships : keeps R getRelationships.
Proof. intros s. apply R_refl. Qed.

Lemma keeps_getErrorCollector : keeps R getErrorCollector.
Proof. intros s. apply R_refl. Qed.

End Invariant.

(** Steps through the structure of a computation with the lemmas above;
    [prim] settles the primitive steps. *)
Ltac keeps_go Hrefl Htrans prim :=
  repeat first
    [ apply (keeps_bind _ Htrans); [|intros ?]
    | apply (keeps_tryCatch _ Htrans); [|intros ?]
    | apply (keeps_forOf _ Hrefl Htrans); intros ?
    | apply (keeps_detached _ Htrans)
    | apply (keeps_ret _ Hrefl)
    | apply (keeps_throw _ Hrefl)
    | apply (keeps_pending _ Hrefl)
    | apply (keeps_getRelationships _ Hrefl)
    | apply (keeps_getErrorCollector _ Hrefl)
    | prim
    | progress cbv beta zeta
    | match goal with
      | |- keeps _ (if ?b then _ else _) => destruct b
      | |- keeps _ (match ?x with _ => _ end) => destruct x
      end ].

(** *** The change handler *)

Lemma recompiles_app (t1 t2 : list Effect) :
  recompiles (t1 ++ t2) = recompiles t1 ++ recompiles t2.
Proof.
  induction t1 as [|e t1 IH]; [done|].
  destruct e; simpl; by rewrite ?IH.
Qed.

Lemma errorLines_app (t1 t2 : list Effect) :
  errorLines (t1 ++ t2) = errorLines t1 ++ errorLines t2.
Proof.
  induction t1 as [|e t1 IH]; [done|].
  destruct e; simpl; by rewrite ?IH.
Qed.

Lemma recompile_eq (entry : EntryConfig) (p : string) s :
  recompile compileFile entry p s = (Returned tt, recompiled compileFile entry p s).
Proof.
  unfold recompile, recompiled, recompileLine, tryCatch, bind, awaitCompileFile,
    console_info, console_error, emit.
  destruct (compileFile p entry (world s)) as [[e|write] w]; simpl;
    by rewrite <- app_assoc.
Qed.

Lemma forOf_recompile (entry : EntryConfig) (deps : list string) s :
  forOf deps (recompile compileFile entry) s =
  (Returned tt, recompiledAll compileFile entry deps s).
Proof.
  revert s. induction deps as [|p deps IH]; intros s; [done|].
  cbn [forOf]. erewrite bind_returned; [|apply recompile_eq]. apply IH.
Qed.

Lemma changeHandler_eq (entry : EntryConfig) (path : string) s :
  changeHandler compileFile entry path s =
  (Returned tt,
   recompiledAll compileFile entry (dependentsOf (relationships s) path)
     (snd (console_info (MsgFileChanged path) s))).
Proof.
  unfold changeHandler, dependentsOf.
  unfold bind at 1. cbn [console_info emit snd].
  unfold bind at 1. cbn [getRelationships relationships].
  destruct (relationships s !! path) as [deps|]; [apply forOf_recompile | done].
Qed.

Lemma recompiledAll_cons (entry : EntryConfig) (p : string) (deps : list string) s :
  recompiledAll compileFile entry (p :: deps) s =
  recompiledAll compileFile entry deps (recompiled compileFile entry p s).
Proof. done. Qed.

Lemma recompiledAll_app (entry : EntryConfig) (l1 l2 : list string) s :
  recompiledAll compileFile entry (l1 ++ l2) s =
  recompiledAll compileFile entry l2 (recompiledAll compileFile entry l1 s).
Proof. apply foldl_app. Qed.

Lemma recompiledAll_frame (entry : EntryConfig) (deps : list string) s :
  relationships (recompiledAll compileFile entry deps s) = relationships s /\
  collector (recompiledAll compileFile entry deps s) = collector s /\
  exitCode (recompiledAll compileFile entry deps s) = exitCode s.
Proof.
  revert s. induction deps as [|p deps IH]; intros s; [done|].
  rewrite recompiledAll_cons.
  destruct (IH (recompiled compileFile entry p s)) as (-> & -> & ->). done.
Qed.

Lemma recompiledAll_trace (entry : EntryConfig) (deps : list string) s :
  exists t : list Effect,
    trace (recompiledAll compileFile entry deps s) = trace s ++ t /\
    recompiles t = deps /\
    Forall (fun e => isWatchEffect e = false /\ isSnapshotWrite e = false) t.
Proof.
  revert s. induction deps as [|p deps IH]; intros s.
  - exists []. by rewrite app_nil_r.
  - rewrite recompiledAll_cons.
    destruct (IH (recompiled compileFile entry p s)) as (t & Ht & Hr & Hq).
    exists ([CallCompileFile p entry; recompileLine compileFile entry p (world s)] ++ t).
    split; [|split].
    + rewrite Ht. cbn [recompiled trace]. by rewrite app_assoc.
    + rewrite recompiles_app, Hr. unfold recompileLine.
      by destruct (fst (compileFile p entry (world s))).
    + apply Forall_app. split; [|done].
      unfold recompileLine.
      destruct (fst (compileFile p entry (world s))); by repeat constructor.
Qed.

(** *** What the program keeps *)

(** Opens a primitive step and the outcome of the collaborator it calls. *)
Ltac prim_open :=
  intros ?; unfold console_info, console_warn, console_error, emit,
    awaitCompileFile, awaitWriteFile, collectError, updateRelationships, setExitCode;
  repeat match goal with
         | |- context [compileFile ?p ?e ?w] => destruct (compileFile p e w) as [[?|?] ?]
         | |- context [writeFile ?f ?w] => destruct (writeFile f w) as [[?|] ?]
         end;
  cbn [snd fst relationships collector world trace exitCode].

Lemma extends_refl (rel : gmap string (list string)) : extends rel rel.
Proof. by intros f. Qed.

Lemma extends_trans (rel1 rel2 rel3 : gmap string (list string)) :
  extends rel1 rel2 -> extends rel2 rel3 -> extends rel1 rel3.
Proof.
  intros H12 H23 f. destruct (H12 f) as [Hk1 Hd1], (H23 f) as [Hk2 Hd2].
  split; [tauto | intros e He; by apply Hd2, Hd1].
Qed.

Lemma extends_relationTracker (d : PostcssPipeResult) (rel : gmap string (list string)) :
  extends rel (relationTracker d rel).
Proof.
  intros f. split.
  - apply relationTracker_keeps_key.
  - intros e. apply relationTracker_keeps_dependent.
Qed.

Lemma tableExtends_refl s : tableExtends s s.
Proof. apply extends_refl. Qed.

Lemma tableExtends_trans s1 s2 s3 :
  tableExtends s1 s2 -> tableExtends s2 s3 -> tableExtends s1 s3.
Proof. apply extends_trans. Qed.

Lemma exitKept_refl s : exitKept s s.
Proof. done. Qed.

Lemma exitKept_trans s1 s2 s3 : exitKept s1 s2 -> exitKept s2 s3 -> exitKept s1 s3.
Proof. unfold exitKept. congruence. Qed.

Lemma quiet_refl s : quiet s s.
Proof. exists []. by rewrite app_nil_r. Qed.

Lemma quiet_trans s1 s2 s3 : quiet s1 s2 -> quiet s2 s3 -> quiet s1 s3.
Proof.
  intros (t1 & H1 & Hq1) (t2 & H2 & Hq2). exists (t1 ++ t2). split.
  - by rewrite H2, H1, app_assoc.
  - by apply Forall_app.
Qed.

Ltac prim_table :=
  solve [ prim_open; first [ apply extends_refl | apply extends_relationTracker ] ].

Ltac prim_exit := solve [ prim_open; reflexivity ].

Ltac prim_quiet :=
  solve [ prim_open;
          first [ apply quiet_refl
                | eexists [_]; split; [reflexivity | by repeat constructor] ] ].

Lemma compile_extends (params : Params) (imp : ConfigImport) (pass : Pass)
    (session : WatchSession) :
  keeps tableExtends (compile compileFile writeFile resolve params imp pass session).
Proof.
  unfold compile, loadConfig, awaitAll, streamItem, dataListener, enableWatchMode,
    watchEvent, changeHandler, recompile.
  keeps_go tableExtends_refl tableExtends_trans prim_table.
Qed.

Lemma coldBuild_exitKept (params : Params) (imp : ConfigImport) (pass : Pass) :
  keeps exitKept (coldBuild writeFile resolve params imp pass).
Proof.
  unfold coldBuild, loadConfig, awaitAll, streamItem, dataListener.
  keeps_go exitKept_refl exitKept_trans prim_exit.
Qed.


Lemma coldBuild_quiet (params : Params) (imp : ConfigImport) (pass : Pass) :
  keeps quiet (coldBuild writeFile resolve params imp pass).
Proof.
  unfold coldBuild, loadConfig, awaitAll, streamItem, dataListener.
  keeps_go quiet_refl quiet_trans prim_quiet.
Qed.

(** *** The cold build *)

Lemma bind_resolved (m : Comp unit) (k : unit -> Comp unit) s :
  resolves m -> bind m k s = k tt (snd (m s)).
Proof.
  intros Hm. specialize (Hm s). unfold bind.
  by destruct (m s) as [[[]| |] s']; simpl in Hm.
Qed.

Lemma streamItem_resolves (params : Params) (item : StreamItem) :
  resolves (streamItem writeFile params item).
Proof. destruct item; [apply detached_resolves | done]. Qed.

Lemma collectorKept_refl s : collectorKept s s.
Proof. done. Qed.

Lemma collectorKept_trans s1 s2 s3 :
  collectorKept s1 s2 -> collectorKept s2 s3 -> collectorKept s1 s3.
Proof. unfold collectorKept. congruence. Qed.

Ltac prim_collector := solve [ prim_open; reflexivity ].

Lemma dataListener_collectorKept (params : Params) (entry : EntryConfig)
    (d : PostcssPipeResult) :
  keeps collectorKept (detached (dataListener writeFile params entry d)).
Proof.
  unfold dataListener.
  keeps_go collectorKept_refl collectorKept_trans prim_collector.
Qed.

Lemma streamItems_collector (params : Params) (items : list StreamItem) s :
  collector (snd (forOf items (streamItem writeFile params) s)) =
  collector s ++ failures items.
Proof.
  revert s. induction items as [|item items IH]; intros s.
  - by rewrite app_nil_r.
  - cbn [forOf]. rewrite bind_resolved by apply streamItem_resolves.
    rewrite IH. destruct item as [entry d|entry e]; cbn [failures].
    + pose proof (dataListener_collectorKept params entry d s) as Hk.
      unfold collectorKept in Hk. cbn [streamItem]. by rewrite Hk.
    + cbn [streamItem collectError snd collector]. by rewrite <- app_assoc.
Qed.

Lemma dataListener_relationships (params : Params) (entry : EntryConfig)
    (d : PostcssPipeResult) s :
  (debug params = true -> forall f w, fst (writeFile f w) = None) ->
  relationships (snd (detached (dataListener writeFile params entry d) s)) =
  if watch params || debug params
  then relationTracker d (relationships s)
  else relationships s.
Proof.
  intros Hw. unfold detached, dataListener, bind, console_info, emit,
    awaitWriteFile, updateRelationships, ret.
  destruct (debug params) eqn:Hd; cbn [snd fst relationships world].
  - specialize (Hw eq_refl (RelationsJson (from d) (includedFiles (stats (sassResult d))))
                  (world s)).
    destruct (writeFile _ (world s)) as [r w]. simpl in Hw. subst r.
    rewrite orb_true_r. done.
  - by destruct (watch params).
Qed.

Lemma streamItems_relationships (params : Params) (items : list StreamItem) s :
  (debug params = true -> forall f w, fst (writeFile f w) = None) ->
  relationships (snd (forOf items (streamItem writeFile params) s)) =
  if watch params || debug params
  then foldl (fun rel d => relationTracker d rel) (relationships s) (successes items)
  else relationships s.
Proof.
  intros Hw. revert s. induction items as [|item items IH]; intros s.
  - by destruct (watch params || debug params).
  - cbn [forOf]. rewrite bind_resolved by apply streamItem_resolves.
    rewrite IH. destruct item as [entry d|entry e]; cbn [successes foldl streamItem].
    + rewrite (dataListener_relationships params entry d s Hw).
      by destruct (watch params || debug params).
    + done.
Qed.

Lemma forOf_emit {A : Type} (g : A -> Effect) (l : list A) s :
  forOf l (fun x => emit (g x)) s =
  (Returned tt,
   mkState (relationships s) (collector s) (world s) (trace s ++ map g l) (exitCode s)).
Proof.
  revert s. induction l as [|x l IH]; intros s.
  - cbn [forOf ret map]. by rewrite app_nil_r, state_eta.
  - cbn [forOf]. unfold bind at 1. cbn [emit]. rewrite IH.
    cbn [relationships collector world trace exitCode map].
    by rewrite <- app_assoc.
Qed.

Lemma loadConfig_eq (params : Params) (imp : ConfigImport) s :
  exists (config : PostsassConfig) (t : list Effect),
    Forall (fun e => isWatchEffect e = false /\ isSnapshotWrite e = false) t /\
    loadConfig params imp s =
    (Returned config,
     mkState (relationships s) (collector s) (world s) (trace s ++ t) (exitCode s)).
Proof.
  destruct imp as [e [|]|postcssField sassField]; cbn.
  - eexists _, [_]. split; [|reflexivity]. by repeat constructor.
  - eexists _, [_; _]. split; [|by rewrite <- app_assoc]. by repeat constructor.
  - eexists _, []. split; [done|]. by rewrite app_nil_r, state_eta.
Qed.

Lemma awaitAll_eq (params : Params) (entries : list EntryConfig) (pass : Pass) s :
  exists t : list Effect,
    let s0 := mkState (relationships s) (collector s) (world s) (trace s ++ t) (exitCode s) in
    Forall (fun e => isWatchEffect e = false /\ isSnapshotWrite e = false) t /\
    awaitAll writeFile params entries pass s =
      match pass with
      | PassRejects e => (Threw e, s0)
      | PassDrains items => forOf items (streamItem writeFile params) s0
      | PassStalls items =>
          bind (forOf items (streamItem writeFile params)) (fun _ => pending) s0
      end.
Proof.
  exists (map (fun entry => ConsoleInfo (MsgDirs (srcRelative entry) (outRelative entry)))
              entries).
  split.
  - apply Forall_forall. intros e He.
    apply list_elem_of_fmap in He as (entry & -> & _). done.
  - unfold awaitAll, console_info. unfold bind at 1. rewrite forOf_emit.
    by destruct pass.
Qed.

Lemma compile_tail (params : Params) (entries : list EntryConfig) (pass : Pass)
    (session : WatchSession) s :
  bind
    (tryCatch
       (bind (awaitAll writeFile params entries pass) (fun _ => ret true))
       (fun e =>
          bind (console_error (MsgErrorOccured (message e))) (fun _ =>
          bind (console_error MsgStack) (fun _ =>
          bind (setExitCode 1) (fun _ => ret false)))))
    (fun drained : bool =>
       if negb drained then ret tt
       else reportAndWatch compileFile writeFile resolve params entries session) s =
  match awaitAll writeFile params entries pass s with
  | (Returned _, sp) =>
      reportAndWatch compileFile writeFile resolve params entries session sp
  | (Threw e, sp) => reportFatal e sp
  | (Pending, sp) => (Pending, sp)
  end.
Proof.
  unfold bind at 1. unfold tryCatch. unfold bind at 1.
  by destruct (awaitAll writeFile params entries pass s) as [[[]|e|] sp].
Qed.

(** The state in which the streams start: the announcements of [compile],
    of [loadConfig] and of every entry are in the log, nothing else has
    changed. *)
Lemma coldBuild_eq (params : Params) (imp : ConfigImport) (pass : Pass) s :
  exists t : list Effect,
    let s0 := mkState (relationships s) (collector s) (world s) (trace s ++ t) (exitCode s) in
    Forall (fun e => isWatchEffect e = false /\ isSnapshotWrite e = false) t /\
    coldBuild writeFile resolve params imp pass s =
      match pass with
      | PassRejects e => (Threw e, s0)
      | PassDrains items => forOf items (streamItem writeFile params) s0
      | PassStalls items =>
          bind (forOf items (streamItem writeFile params)) (fun _ => pending) s0
      end.
Proof.
  set (s1 := mkState (relationships s) (collector s) (world s)
               (trace s ++ [ConsoleInfo (MsgOutputStyle (outputStyle params));
                            ConsoleInfo (MsgSourceMap (sourceMap params))])
               (exitCode s)).
  destruct (loadConfig_eq params imp s1) as (config & t1 & Hq1 & Hload).
  destruct (awaitAll_eq params (map (mkEntry resolve params config) (dir params)) pass
              (mkState (relationships s) (collector s) (world s) (trace s1 ++ t1)
                 (exitCode s))) as (t2 & Hq2 & Hawait).
  exists ([ConsoleInfo (MsgOutputStyle (outputStyle params));
           ConsoleInfo (MsgSourceMap (sourceMap params))] ++ t1 ++ t2).
  cbn zeta. split; [apply Forall_app; split; [by repeat constructor | by apply Forall_app]|].
  unfold coldBuild.
  rewrite (bind_returned (console_info _) _ s tt _ eq_refl).
  rewrite (bind_returned (console_info _) _ _ tt s1);
    [|by unfold console_info, emit; cbn; rewrite <- app_assoc].
  rewrite (bind_returned _ _ _ _ _ Hload).
  cbn [relationships collector world trace exitCode s1] in *.
  rewrite Hawait. by rewrite !app_assoc.
Qed.

(** From the end of the cold build [compile] goes on according to how the
    build ended. *)
Lemma compile_eq (params : Params) (imp : ConfigImport) (pass : Pass)
    (session : WatchSession) s :
  exists entries : list EntryConfig,
    length entries = length (dir params) /\
    compile compileFile writeFile resolve params imp pass session s =
      match coldBuild writeFile resolve params imp pass s with
      | (Returned _, sp) =>
          reportAndWatch compileFile writeFile resolve params entries session sp
      | (Threw e, sp) => reportFatal e sp
      | (Pending, sp) => (Pending, sp)
      end.
Proof.
  set (s1 := mkState (relationships s) (collector s) (world s)
               (trace s ++ [ConsoleInfo (MsgOutputStyle (outputStyle params));
                            ConsoleInfo (MsgSourceMap (sourceMap params))])
               (exitCode s)).
  destruct (loadConfig_eq params imp s1) as (config & t1 & Hq1 & Hload).
  exists (map (mkEntry resolve params config) (dir params)).
  split; [apply length_map|].
  unfold coldBuild, compile.
  rewrite !(bind_returned (console_info _) _ s tt _ eq_refl).
  rewrite !(bind_returned (console_info _) _ _ tt s1);
    try (by unfold console_info, emit; cbn; rewrite <- app_assoc).
  rewrite !(bind_returned _ _ _ _ _ Hload).
  apply compile_tail.
Qed.

(** *** Watch mode and the end of [compile] *)

Lemma watchEvent_resolves (entry : EntryConfig) (ev : WatchEvent) :
  resolves (watchEvent compileFile entry ev).
Proof. destruct ev; [done | done | apply detached_resolves]. Qed.


Lemma enableWatchMode_completion (params : Params) (entries : list EntryConfig)
    (session : WatchSession) s :
  fst (enableWatchMode compileFile resolve params entries session s) =
  if watchResolves session entries then Returned tt else Pending.
Proof.
  unfold enableWatchMode, watchResolves, tryCatch.
  unfold bind at 1. cbn [emit].
  destruct (chokidarImport session) as [e|]; [done|].
  unfold bind at 1. cbn [ret]. unfold bind at 1. cbn [console_info emit].
  unfold bind at 1. rewrite forOf_emit.
  destruct entries as [|entry entries]; [done|].
  rewrite bind_resolved by (apply forOf_resolves; intros ?; apply watchEvent_resolves).
  destruct (sigint session); [|done].
  by rewrite forOf_emit.
Qed.

Lemma reportAndWatch_errors (params : Params) (entries : list EntryConfig)
    (session : WatchSession) s :
  collector s <> [] ->
  reportAndWatch compileFile writeFile resolve params entries session s =
  (Returned tt,
   mkState (relationships s) (collector s) (world s)
     (trace s ++ ConsoleError MsgErrorsWhileCompiling ::
                 map (fun e => ConsoleError (MsgText (message e))) (collector s))
     (Some 2%Z)).
Proof.
  intros Hne. unfold reportAndWatch. unfold bind at 1. cbn [getErrorCollector].
  destruct (collector s) as [|e0 errors] eqn:Hc; [done|]. cbn [hasErrors].
  unfold bind at 1. cbn [console_error emit]. unfold bind at 1.
  unfold console_error. rewrite forOf_emit.
  cbn [setExitCode relationships collector world trace exitCode].
  by rewrite Hc, <- app_assoc.
Qed.


Lemma changeHandler_relationships (entry : EntryConfig) (path : string) s :
  relationships (snd (changeHandler compileFile entry path s)) = relationships s.
Proof.
  rewrite changeHandler_eq. cbn [snd].
  by destruct (recompiledAll_frame entry (dependentsOf (relationships s) path)
                 (snd (console_info (MsgFileChanged path) s))) as (-> & _).
Qed.

Lemma foldl_relationTracker_absent (path : string) (ds : list PostcssPipeResult)
    (rel : gmap string (list string)) :
  rel !! path = None ->
  Forall (fun d => path ∉ includedFiles (stats (sassResult d))) ds ->
  foldl (fun rel' d => relationTracker d rel') rel ds !! path = None.
Proof.
  intros Hrel Hds. revert rel Hrel.
  induction Hds as [|d ds Hd _ IH]; intros rel Hrel; [done|].
  cbn [foldl]. apply IH. apply eq_None_not_Some. intros Hsome.
  apply key_relationTracker in Hsome as [Hin|Hsome]; [done|].
  rewrite Hrel in Hsome. by destruct Hsome.
Qed.

Lemma filter_quiet (P : Effect -> bool) (l t : list Effect) :
  Forall (fun e => P e = false) t -> List.filter P (l ++ t) = List.filter P l.
Proof.
  intros Ht. rewrite List.filter_app.
  replace (List.filter P t) with (@nil Effect); [by rewrite app_nil_r|].
  induction Ht as [|e t He _ IH]; [done|]. cbn [List.filter]. by rewrite He.
Qed.

(** *** The claims about the running program *)


(** C3: a change event on [path] attempts a recompile for exactly the
    dependents recorded for [path], one after another in recorded order; when
    [path] occurs in no recorded included-file set, the event is logged and
    nothing else happens: no recompile and no error. *)
Theorem C3_change_recompiles_dependents (entry : EntryConfig) (path : string) s :
  let s' := snd (changeHandler compileFile entry path s) in
  (exists t : list Effect,
     trace s' = trace s ++ ConsoleInfo (MsgFileChanged path) :: t /\
     recompiles t = dependentsOf (relationships s) path) /\
  (forall ds : list PostcssPipeResult,
     relationships s = recorded ds ->
     Forall (fun d => path ∉ includedFiles (stats (sassResult d))) ds ->
     trace s' = trace s ++ [ConsoleInfo (MsgFileChanged path)] /\
     recompiles (trace s') = recompiles (trace s) /\
     errorLines (trace s') = errorLines (trace s)).
Proof.
  cbn zeta. rewrite changeHandler_eq. cbn [snd]. split.
  - destruct (recompiledAll_trace entry (dependentsOf (relationships s) path)
                (snd (console_info (MsgFileChanged path) s))) as (t & Ht & Hr & _).
    exists t. split; [|done]. rewrite Ht. cbn [console_info emit snd trace].
    by rewrite <- app_assoc.
  - intros ds Hrel Hds.
    assert (Hnone : dependentsOf (relationships s) path = []).
    { unfold dependentsOf. rewrite Hrel. unfold recorded.
      by rewrite foldl_relationTracker_absent. }
    rewrite Hnone. cbn [recompiledAll foldl console_info emit snd trace].
    by rewrite recompiles_app, errorLines_app, !app_nil_r.
Qed.

(** C6: when the recompile of the dependent [p] fails, the failure is logged
    with [console.error], the dependents after [p] are still attempted in
    order, and the change handler resolves: the watcher sees no rejection. *)
Theorem C6_failed_recompile_is_isolated (entry : EntryConfig) (path : string) s
    (pre : list string) (p : string) (post : list string) (e : JsError) (w : World) :
  dependentsOf (relationships s) path = pre ++ p :: post ->
  let s1 := recompiledAll compileFile entry pre (snd (console_info (MsgFileChanged path) s)) in
  compileFile p entry (world s1) = (inl e, w) ->
  let s2 := mkState (relationships s1) (collector s1) w
              (trace s1 ++ [CallCompileFile p entry;
                            ConsoleError (MsgErrorWhenCompiling p (message e))])
              (exitCode s1) in
  let s3 := recompiledAll compileFile entry post s2 in
  changeHandler compileFile entry path s = (Returned tt, s3) /\
  watchEvent compileFile entry (EvChange path) s = (Returned tt, s3) /\
  (exists t : list Effect, trace s3 = trace s2 ++ t /\ recompiles t = post).
Proof.
  intros Hdeps s1 Hfail s2 s3.
  assert (Hhandler : changeHandler compileFile entry path s = (Returned tt, s3)).
  { rewrite changeHandler_eq, Hdeps, recompiledAll_app, recompiledAll_cons.
    fold s1. do 2 f_equal. unfold recompiled, recompileLine. by rewrite Hfail. }
  split; [done|]. split.
  - cbn [watchEvent]. unfold detached. by rewrite Hhandler.
  - destruct (recompiledAll_trace entry post s2) as (t & Ht & Hr & _). by exists t.
Qed.

(** C7: a removal notification is only logged: no recompile is attempted,
    and the table, the collector, the world and the exit code stay as they
    are, whether or not the removed file is a key of the table. *)
Theorem C7_removal_is_inert (entry : EntryConfig) (path : string) s :
  let r := watchEvent compileFile entry (EvUnlink path) s in
  r = (Returned tt,
       mkState (relationships s) (collector s) (world s)
               (trace s ++ [ConsoleInfo (MsgRemoved path)]) (exitCode s)) /\
  relationships (snd r) = relationships s /\
  recompiles (trace (snd r)) = recompiles (trace s).
Proof.
  cbn. split; [done|]. split; [done|]. by rewrite recompiles_app, app_nil_r.
Qed.

(** C8: a dependent [e] recorded for the file [f] stays recorded for [f]
    after any further recordings, also those of [e] itself without [f],
    and through a whole run of [compile], watch mode included; the key [f]
    stays as well. *)
Theorem C8_additive_only (f e : string) (rel : gmap string (list string)) :
  e ∈ dependentsOf rel f ->
  (forall ds : list PostcssPipeResult,
     e ∈ dependentsOf (foldl (fun rel' d => relationTracker d rel') rel ds) f) /\
  (forall (params : Params) (imp : ConfigImport) (pass : Pass) (session : WatchSession) s,
     relationships s = rel ->
     let s' := snd (compile compileFile writeFile resolve params imp pass session s) in
     e ∈ dependentsOf (relationships s') f /\ is_Some (relationships s' !! f)).
Proof.
  intros He. split.
  - intros ds. revert rel He. induction ds as [|d ds IH]; intros rel He; [done|].
    cbn [foldl]. by apply IH, relationTracker_keeps_dependent.
  - intros params imp pass session s <-. cbn zeta.
    destruct (compile_extends params imp pass session s f) as [Hkey Hdep].
    split; [by apply Hdep|]. apply Hkey.
    unfold dependentsOf in He. destruct (relationships s !! f); [done|].
    by apply not_elem_of_nil in He.
Qed.

Lemma compile_stalled (params : Params) (imp : ConfigImport) (items : list StreamItem)
    (session : WatchSession) s :
  coldBuild writeFile resolve params imp (PassStalls items) s =
    (Pending, snd (coldBuild writeFile resolve params imp (PassStalls items) s)) /\
  compile compileFile writeFile resolve params imp (PassStalls items) session s =
    (Pending, snd (coldBuild writeFile resolve params imp (PassStalls items) s)).
Proof.
  destruct (compile_eq params imp (PassStalls items) session s) as (entries & _ & ->).
  destruct (coldBuild_eq params imp (PassStalls items) s) as (t & _ & ->).
  rewrite bind_resolved by (apply forOf_resolves; apply streamItem_resolves).
  done.
Qed.


(** C10: when the one-shot pass drains and the error collector then holds an
    error, [compile] lists the errors, sets the exit code 2 and returns:
    whatever [params.watch] and [params.debug] say, no watch-mode effect and
    no write of [relationships.json] is added to the log. *)
Theorem C10_errors_stop_compile (params : Params) (imp : ConfigImport)
    (items : list StreamItem) (session : WatchSession) s :
  collector s ++ failures items <> [] ->
  let sp := snd (coldBuild writeFile resolve params imp (PassDrains items) s) in
  let r := compile compileFile writeFile resolve params imp (PassDrains items) session s in
  r = (Returned tt,
       mkState (relationships sp) (collector sp) (world sp)
         (trace sp ++ ConsoleError MsgErrorsWhileCompiling ::
                      map (fun e => ConsoleError (MsgText (message e))) (collector sp))
         (Some 2%Z)) /\
  List.filter isWatchEffect (trace (snd r)) = List.filter isWatchEffect (trace s) /\
  List.filter isSnapshotWrite (trace (snd r)) = List.filter isSnapshotWrite (trace s).
Proof.
  intros Hne. cbn zeta.
  pose proof (coldBuild_quiet params imp (PassDrains items) s) as (tq & Htq & Hq).
  destruct (compile_eq params imp (PassDrains items) session s) as (entries & _ & ->).
  destruct (coldBuild_eq params imp (PassDrains items) s) as (t & _ & Hcold).
  pose proof (streamItems_collector params items
                (mkState (relationships s) (collector s) (world s) (trace s ++ t)
                   (exitCode s))) as Hcoll.
  pose proof (forOf_resolves items (streamItem writeFile params)
                (streamItem_resolves params)
                (mkState (relationships s) (collector s) (world s) (trace s ++ t)
                   (exitCode s))) as Hres.
  rewrite <- Hcold in Hcoll, Hres. cbn [collector] in Hcoll.
  destruct (coldBuild writeFile resolve params imp (PassDrains items) s)
    as [[[]| |] sp]; cbn [fst snd] in *; try discriminate.
  rewrite <- Hcoll in Hne. rewrite reportAndWatch_errors by done.
  split; [done|]. cbn [snd trace]. rewrite Htq, <- app_assoc.
  split; apply filter_quiet; apply Forall_app; split.
  - eapply Forall_impl; [exact Hq | by intros ? [? ?]].
  - constructor; [done|]. apply Forall_forall. intros x Hx.
    apply list_elem_of_fmap in Hx as (? & -> & _). done.
  - eapply Forall_impl; [exact Hq | by intros ? [? ?]].
  - constructor; [done|]. apply Forall_forall. intros x Hx.
    apply list_elem_of_fmap in Hx as (? & -> & _). done.
Qed.


(** *** Further properties of the running program *)

Lemma debugWrites_app (t1 t2 : list Effect) :
  debugWrites (t1 ++ t2) = debugWrites t1 ++ debugWrites t2.
Proof.
  induction t1 as [|e t1 IH]; [done|].
  destruct e; simpl; by rewrite ?IH.
Qed.

Lemma compileCalls_app (t1 t2 : list Effect) :
  compileCalls (t1 ++ t2) = compileCalls t1 ++ compileCalls t2.
Proof.
  induction t1 as [|e t1 IH]; [done|].
  destruct e; simpl; by rewrite ?IH.
Qed.

Lemma compileCalls_map {A : Type} (g : A -> Effect) (l : list A) :
  (forall x, compileCalls [g x] = []) -> compileCalls (map g l) = [].
Proof.
  intros Hg. induction l as [|x l IH]; [done|].
  change (map g (x :: l)) with ([g x] ++ map g l).
  by rewrite compileCalls_app, Hg, IH.
Qed.

Lemma debugWrites_map {A : Type} (g : A -> Effect) (l : list A) :
  (forall x, debugWrites [g x] = []) -> debugWrites (map g l) = [].
Proof.
  intros Hg. induction l as [|x l IH]; [done|].
  change (map g (x :: l)) with ([g x] ++ map g l).
  by rewrite debugWrites_app, Hg, IH.
Qed.

Lemma frozen_refl s : frozen s s.
Proof. done. Qed.

Lemma frozen_trans s1 s2 s3 : frozen s1 s2 -> frozen s2 s3 -> frozen s1 s3.
Proof.
  intros (H1 & H2 & H3 & H4) (H1' & H2' & H3' & H4').
  unfold frozen. by rewrite H1', H2', H3', H4'.
Qed.

Ltac prim_frozen :=
  solve [ prim_open; unfold keeps; intros; unfold frozen;
          cbn [snd fst relationships collector world trace exitCode];
          rewrite ?debugWrites_app; cbn [debugWrites]; rewrite ?app_nil_r; done ].

Lemma callsKept_refl s : callsKept s s.
Proof. done. Qed.

Lemma callsKept_trans s1 s2 s3 : callsKept s1 s2 -> callsKept s2 s3 -> callsKept s1 s3.
Proof. unfold callsKept. congruence. Qed.

Ltac prim_calls :=
  solve [ prim_open; unfold keeps; intros; unfold callsKept;
          cbn [snd fst relationships collector world trace exitCode];
          rewrite ?compileCalls_app; cbn [compileCalls]; rewrite ?app_nil_r; done ].

Lemma enableWatchMode_frozen (params : Params) (entries : list EntryConfig)
    (session : WatchSession) :
  keeps frozen (enableWatchMode compileFile resolve params entries session).
Proof.
  unfold enableWatchMode, watchEvent, changeHandler, recompile.
  keeps_go frozen_refl frozen_trans prim_frozen.
Qed.

Lemma coldBuild_callsKept (params : Params) (imp : ConfigImport) (pass : Pass) :
  keeps callsKept (coldBuild writeFile resolve params imp pass).
Proof.
  unfold coldBuild, loadConfig, awaitAll, streamItem, dataListener.
  keeps_go callsKept_refl callsKept_trans prim_calls.
Qed.

(** Watch mode freezes the table: whatever the watchers deliver and however
    the recompiles end, [enableWatchMode] leaves the table, the error
    collector and the exit code as they were, and writes no debug file. *)
Theorem watch_mode_frozen (params : Params) (entries : list EntryConfig)
    (session : WatchSession) s :
  let s' := snd (enableWatchMode compileFile resolve params entries session s) in
  relationships s' = relationships s /\
  collector s' = collector s /\
  exitCode s' = exitCode s /\
  debugWrites (trace s') = debugWrites (trace s).
Proof. apply enableWatchMode_frozen. Qed.

Lemma recompiledAll_calls (entry : EntryConfig) (deps : list string) s :
  compileCalls (trace (recompiledAll compileFile entry deps s)) =
  compileCalls (trace s) ++ map (fun p => (p, entry)) deps.
Proof.
  revert s. induction deps as [|p deps IH]; intros s.
  - by rewrite app_nil_r.
  - rewrite recompiledAll_cons, IH. cbn [recompiled trace].
    rewrite compileCalls_app, <- app_assoc. f_equal.
    unfold recompileLine. by destruct (fst (compileFile p entry (world s))).
Qed.

Lemma watchEvent_calls (entry : EntryConfig) (ev : WatchEvent) s :
  relationships (snd (watchEvent compileFile entry ev s)) = relationships s /\
  compileCalls (trace (snd (watchEvent compileFile entry ev s))) =
  compileCalls (trace s) ++ changeTargets (relationships s) [(entry, ev)].
Proof.
  destruct ev as [| path | path]; cbn [watchEvent changeTargets].
  - split; [done|]. cbn. by rewrite compileCalls_app.
  - split; [done|]. cbn. by rewrite compileCalls_app.
  - unfold detached. rewrite changeHandler_eq. cbn [snd].
    destruct (recompiledAll_frame entry (dependentsOf (relationships s) path)
                (snd (console_info (MsgFileChanged path) s))) as (Hrel & _).
    split; [done|].
    rewrite recompiledAll_calls. cbn [console_info emit snd trace].
    by rewrite compileCalls_app, !app_nil_r.
Qed.

Lemma events_calls (evs : list (EntryConfig * WatchEvent)) s :
  relationships (snd (forOf evs (fun ev => watchEvent compileFile (fst ev) (snd ev)) s)) =
    relationships s /\
  compileCalls
    (trace (snd (forOf evs (fun ev => watchEvent compileFile (fst ev) (snd ev)) s))) =
  compileCalls (trace s) ++ changeTargets (relationships s) evs.
Proof.
  revert s. induction evs as [|[entry ev] evs IH]; intros s.
  - split; [done|]. by rewrite app_nil_r.
  - cbn [forOf]. rewrite bind_resolved by apply watchEvent_resolves. cbn [fst snd].
    destruct (IH (snd (watchEvent compileFile entry ev s))) as [Hrel Hcalls].
    destruct (watchEvent_calls entry ev s) as [Hrel1 Hcalls1].
    rewrite Hrel, Hcalls, Hrel1, Hcalls1. split; [done|].
    rewrite <- app_assoc. f_equal.
    destruct ev; cbn [changeTargets]; by rewrite ?app_nil_r.
Qed.

Lemma enableWatchMode_session_calls (params : Params) (entries : list EntryConfig)
    (session : WatchSession) s :
  chokidarImport session = None ->
  entries <> [] ->
  compileCalls (trace (snd (enableWatchMode compileFile resolve params entries session s))) =
  compileCalls (trace s) ++ changeTargets (relationships s) (events session).
Proof.
  intros Himport Hentries.
  unfold enableWatchMode, tryCatch.
  unfold bind at 1. cbn [emit]. rewrite Himport.
  unfold bind at 1. cbn [ret]. unfold bind at 1. cbn [console_info emit].
  unfold bind at 1. rewrite forOf_emit.
  destruct entries as [|entry entries]; [done|].
  rewrite bind_resolved by (apply forOf_resolves; intros ?; apply watchEvent_resolves).
  match goal with
  | |- context [forOf (events session) ?body ?s1] =>
      destruct (events_calls (events session) s1) as [_ Hcalls];
      set (s2 := snd (forOf (events session) body s1)) in *
  end.
  cbn [relationships trace] in Hcalls.
  rewrite !compileCalls_app, compileCalls_map in Hcalls by done.
  cbn [compileCalls] in Hcalls. rewrite !app_nil_r in Hcalls.
  destruct (sigint session).
  - rewrite forOf_emit. cbn [snd trace].
    by rewrite compileCalls_app, compileCalls_map, app_nil_r.
  - done.
Qed.

(** With chokidar at hand and at least one entry, the calls of
    [compileFile] in a watch session are, event by event, the dependents the
    table held for the changed path when watch mode started, each compiled
    with the entry of the watcher that saw the change (not the entry the
    dependent was recorded under); [ready] and [unlink] events add none.
    (Events are handled one after another, as everywhere in this file.) *)
Theorem watch_session_calls (params : Params) (entries : list EntryConfig)
    (session : WatchSession) s :
  chokidarImport session = None ->
  entries <> [] ->
  compileCalls (trace (snd (enableWatchMode compileFile resolve params entries session s))) =
  compileCalls (trace s) ++ changeTargets (relationships s) (events session).
Proof. apply enableWatchMode_session_calls. Qed.

Lemma enableWatchMode_import_fails (params : Params) (entries : list EntryConfig)
    (session : WatchSession) (e : JsError) s :
  chokidarImport session = Some e ->
  enableWatchMode compileFile resolve params entries session s =
  (Returned tt, logged s [ImportChokidar; ConsoleError (MsgException e)]).
Proof.
  intros Himport. unfold enableWatchMode, tryCatch, logged.
  unfold bind at 1. cbn [emit]. rewrite Himport.
  unfold bind at 1. cbn. unfold console_error, emit. cbn. by rewrite <- app_assoc.
Qed.

(** When chokidar cannot be imported, [enableWatchMode] logs the exception
    and resolves at once: no watcher is started and no event is handled. *)
Theorem watch_import_failure (params : Params) (entries : list EntryConfig)
    (session : WatchSession) (e : JsError) s :
  chokidarImport session = Some e ->
  enableWatchMode compileFile resolve params entries session s =
  (Returned tt, logged s [ImportChokidar; ConsoleError (MsgException e)]).
Proof. apply enableWatchMode_import_fails. Qed.

(** Under [params.debug], a unit whose debug file cannot be written is not
    recorded although it compiled: the listener rejects at the write, before
    it reaches [relationTracker], and nobody handles the rejection. The
    table, the collector and the exit code are what they were. *)
Theorem debug_write_failure_skips_recording (params : Params) (entry : EntryConfig)
    (d : PostcssPipeResult) (e : JsError) (w : World) s :
  debug params = true ->
  writeFile (RelationsJson (from d) (includedFiles (stats (sassResult d)))) (world s) =
    (Some e, w) ->
  streamItem writeFile params (UnitCompiled entry d) s =
  (Returned tt,
   mkState (relationships s) (collector s) w
     (trace s ++ [ConsoleInfo (MsgCompiled (from d) (to d));
                  CallWriteFile (RelationsJson (from d)
                                   (includedFiles (stats (sassResult d))));
                  UnhandledRejection e])
     (exitCode s)).
Proof.
  intros Hd Hw. cbn [streamItem]. unfold detached, dataListener.
  unfold bind at 1. cbn [console_info emit]. rewrite Hd.
  unfold bind at 1. unfold awaitWriteFile. cbn [world]. rewrite Hw.
  cbn [relationships collector world trace exitCode]. by rewrite <- !app_assoc.
Qed.

(** *** Further properties of [compile] *)

Lemma loadConfig_exact (params : Params) (imp : ConfigImport) s :
  loadConfig params imp s = (Returned (configOf params imp), logged s (configLog imp)).
Proof.
  unfold logged.
  destruct imp as [e [|]|postcssField [fileSass|]]; cbn;
    rewrite <- ?app_assoc, ?app_nil_r, ?state_eta; reflexivity.
Qed.

Lemma coldBuild_exact (params : Params) (imp : ConfigImport) (pass : Pass) s :
  coldBuild writeFile resolve params imp pass s =
  match pass with
  | PassRejects e => (Threw e, logged s (startLog resolve params imp))
  | PassDrains items =>
      forOf items (streamItem writeFile params) (logged s (startLog resolve params imp))
  | PassStalls items =>
      bind (forOf items (streamItem writeFile params)) (fun _ => pending)
        (logged s (startLog resolve params imp))
  end.
Proof.
  unfold coldBuild.
  rewrite (bind_returned (console_info _) _ s tt _ eq_refl).
  rewrite (bind_returned (console_info _) _ _ tt _ eq_refl).
  rewrite (bind_returned _ _ _ _ _ (loadConfig_exact params imp _)).
  unfold awaitAll, console_info. unfold bind at 1. rewrite forOf_emit.
  unfold logged, startLog, entriesOf.
  cbn [relationships collector world trace exitCode emit snd].
  rewrite <- !app_assoc. by destruct pass.
Qed.

Lemma compile_exact (params : Params) (imp : ConfigImport) (pass : Pass)
    (session : WatchSession) s :
  compile compileFile writeFile resolve params imp pass session s =
  match coldBuild writeFile resolve params imp pass s with
  | (Returned _, sp) =>
      reportAndWatch compileFile writeFile resolve params (entriesOf resolve params imp)
        session sp
  | (Threw e, sp) => reportFatal e sp
  | (Pending, sp) => (Pending, sp)
  end.
Proof.
  unfold coldBuild, compile.
  rewrite !(bind_returned (console_info _) _ s tt _ eq_refl).
  rewrite !(bind_returned (console_info _) _ _ tt _ eq_refl).
  rewrite !(bind_returned _ _ _ _ _ (loadConfig_exact params imp _)).
  apply compile_tail.
Qed.

(** How a drained cold build leaves the state, and how [compile] goes on
    from there. *)
Lemma compile_drained (params : Params) (imp : ConfigImport) (items : list StreamItem)
    (session : WatchSession) s :
  let sp := snd (coldBuild writeFile resolve params imp (PassDrains items) s) in
  compile compileFile writeFile resolve params imp (PassDrains items) session s =
    reportAndWatch compileFile writeFile resolve params (entriesOf resolve params imp)
      session sp /\
  collector sp = collector s ++ failures items /\
  exitCode sp = exitCode s /\
  compileCalls (trace sp) = compileCalls (trace s).
Proof.
  cbn zeta. rewrite compile_exact.
  pose proof (coldBuild_exitKept params imp (PassDrains items) s) as Hexit.
  pose proof (coldBuild_callsKept params imp (PassDrains items) s) as Hcalls.
  pose proof (streamItems_collector params items (logged s (startLog resolve params imp)))
    as Hcoll.
  pose proof (forOf_resolves items (streamItem writeFile params)
                (streamItem_resolves params) (logged s (startLog resolve params imp)))
    as Hres.
  rewrite <- (coldBuild_exact params imp (PassDrains items) s) in Hcoll, Hres.
  destruct (coldBuild writeFile resolve params imp (PassDrains items) s)
    as [[[]| |] sp]; cbn [fst snd] in *; try discriminate.
  done.
Qed.

(** With a single root, when the set-up of its stream throws, the promise
    [compile] awaits rejects and [compile] itself resolves: it logs the
    message and the stack after the opening announcements, sets the exit
    code 1, and touches neither the table, the collector nor the world. (No
    stream is running then. With several roots the streams of the other
    roots go on after [compile] has returned, which is why this is stated
    for one root.) *)
Theorem compile_fatal (params : Params) (imp : ConfigImport) (e : JsError)
    (session : WatchSession) (d : string) s :
  dir params = [d] ->
  compile compileFile writeFile resolve params imp (PassRejects e) session s =
  (Returned tt,
   mkState (relationships s) (collector s) (world s)
     (trace s ++ startLog resolve params imp ++
        [ConsoleError (MsgErrorOccured (message e)); ConsoleError MsgStack])
     (Some 1%Z)).
Proof.
  intros _. rewrite compile_exact, coldBuild_exact. unfold reportFatal, logged.
  cbn. unfold setExitCode. cbn. do 2 f_equal.
  rewrite <- !app_assoc. cbn. by rewrite <- !app_assoc.
Qed.

(** The command line wins over the config file: whatever
    [postsass.config.js] exports, and also when it is missing, [loadConfig]
    resolves with sass options that carry the output style and the
    source-map flag of [params], and it leaves the table, the collector and
    the exit code alone. *)
Theorem loadConfig_cli_wins (params : Params) (imp : ConfigImport) s :
  exists config : PostsassConfig,
    fst (loadConfig params imp s) = Returned config /\
    sassOutputStyle (sass config) = outputStyle params /\
    sassSourceMap (sass config) = sourceMap params /\
    relationships (snd (loadConfig params imp s)) = relationships s /\
    collector (snd (loadConfig params imp s)) = collector s /\
    exitCode (snd (loadConfig params imp s)) = exitCode s.
Proof.
  exists (configOf params imp). rewrite loadConfig_exact.
  by destruct imp as [? ?|? [?|]].
Qed.

Lemma enableWatchMode_calls (params : Params) (entries : list EntryConfig)
    (session : WatchSession) s :
  compileCalls (trace (snd (enableWatchMode compileFile resolve params entries session s))) =
  compileCalls (trace s) ++
  if watching session entries then changeTargets (relationships s) (events session) else [].
Proof.
  unfold watching. destruct (chokidarImport session) as [e|] eqn:Himport.
  - rewrite (enableWatchMode_import_fails params entries session e s Himport).
    cbn [snd logged trace]. rewrite compileCalls_app. cbn. by rewrite !app_nil_r.
  - destruct entries as [|entry entries].
    + unfold enableWatchMode, tryCatch. unfold bind at 1. cbn [emit]. rewrite Himport.
      cbn. rewrite !compileCalls_app. cbn. by rewrite !app_nil_r.
    + by apply enableWatchMode_session_calls.
Qed.

(** The last step of [compile]: watch mode, if asked for. *)
Lemma watchPart_spec (params : Params) (entries : list EntryConfig)
    (session : WatchSession) s :
  let r := (if watch params
            then bind (enableWatchMode compileFile resolve params entries session) (fun _ =>
                 bind (console_info MsgGracefulShutdown) (fun _ => setExitCode 0))
            else ret tt) s in
  fst r = (if watch params
           then if watchResolves session entries then Returned tt else Pending
           else Returned tt) /\
  debugWrites (trace (snd r)) = debugWrites (trace s) /\
  compileCalls (trace (snd r)) =
    compileCalls (trace s) ++
    if watch params && watching session entries
    then changeTargets (relationships s) (events session) else [].
Proof.
  cbn zeta. destruct (watch params); cbn [andb].
  - pose proof (enableWatchMode_completion params entries session s) as Hfst.
    pose proof (enableWatchMode_frozen params entries session s) as (_ & _ & _ & Hw).
    pose proof (enableWatchMode_calls params entries session s) as Hcalls.
    unfold bind.
    destruct (enableWatchMode compileFile resolve params entries session s)
      as [[[]|e|] s2]; cbn [fst snd] in *;
      destruct (watchResolves session entries); try discriminate.
    + split; [done|]. cbn. rewrite debugWrites_app, compileCalls_app. cbn.
      by rewrite !app_nil_r.
    + done.
  - cbn. by rewrite app_nil_r.
Qed.

(** What [compile] does after a cold build that left no error. *)
Lemma reportAndWatch_spec (params : Params) (entries : list EntryConfig)
    (session : WatchSession) s :
  collector s = [] ->
  let r := reportAndWatch compileFile writeFile resolve params entries session s in
  fst r =
    match (if debug params
           then fst (writeFile (RelationshipsJson (relationships s)) (world s))
           else None) with
    | Some e => Threw e
    | None =>
        if watch params
        then if watchResolves session entries then Returned tt else Pending
        else Returned tt
    end /\
  debugWrites (trace (snd r)) =
    debugWrites (trace s) ++
    (if debug params then [RelationshipsJson (relationships s)] else []) /\
  compileCalls (trace (snd r)) =
    compileCalls (trace s) ++
    if snapshotWritten writeFile params s && watch params && watching session entries
    then changeTargets (relationships s) (events session) else [].
Proof.
  intros Hc. cbn zeta. unfold reportAndWatch, snapshotWritten.
  set (wp := if watch params then bind _ _ else ret tt).
  unfold bind, getErrorCollector, getRelationships, awaitWriteFile, console_info, emit.
  rewrite Hc. cbn [hasErrors].
  destruct (debug params).
  - destruct (writeFile (RelationshipsJson (relationships s)) (world s)) as [[e|] w];
      cbn [fst snd andb trace].
    + rewrite debugWrites_app, compileCalls_app. cbn. by rewrite !app_nil_r.
    + match goal with
      | |- context [wp ?s1] =>
          destruct (watchPart_spec params entries session s1) as (Hfst & Hw & Hcalls)
      end.
      fold wp in Hfst, Hw, Hcalls. cbn [relationships trace] in *.
      destruct (wp _) as [c s2]. cbn [fst snd] in *. subst c. rewrite Hw, Hcalls.
      rewrite !debugWrites_app, !compileCalls_app. cbn. by rewrite ?app_nil_r.
  - cbn [ret andb].
    match goal with
    | |- context [wp ?s1] =>
        destruct (watchPart_spec params entries session s1) as (Hfst & Hw & Hcalls)
    end.
    fold wp in Hfst, Hw, Hcalls. cbn [relationships trace] in *.
    destruct (wp _) as [c s2]. cbn [fst snd] in *. subst c. rewrite Hw, Hcalls.
    rewrite !debugWrites_app, !compileCalls_app. cbn. by rewrite ?app_nil_r.
Qed.

Lemma hasErrors_nil (errors : list JsError) : hasErrors errors = false <-> errors = [].
Proof. by destruct errors. Qed.

Lemma dataListener_writes (params : Params) (entry : EntryConfig)
    (d : PostcssPipeResult) s :
  debugWrites (trace (snd (detached (dataListener writeFile params entry d) s))) =
  debugWrites (trace s) ++
  if debug params
  then [RelationsJson (from d) (includedFiles (stats (sassResult d)))] else [].
Proof.
  unfold detached, dataListener, bind, console_info, emit, awaitWriteFile,
    updateRelationships, ret.
  destruct (debug params); cbn [snd fst relationships world trace].
  - destruct (writeFile _ (world s)) as [[e|] w]; cbn [snd trace];
      rewrite ?orb_true_r; cbn [snd trace];
      rewrite !debugWrites_app; cbn; by rewrite ?app_nil_r.
  - destruct (watch params); cbn [orb snd trace];
      rewrite !debugWrites_app; cbn; by rewrite ?app_nil_r.
Qed.

Lemma streamItems_writes (params : Params) (items : list StreamItem) s :
  debugWrites (trace (snd (forOf items (streamItem writeFile params) s))) =
  debugWrites (trace s) ++
  if debug params
  then map (fun d => RelationsJson (from d) (includedFiles (stats (sassResult d))))
           (successes items)
  else [].
Proof.
  revert s. induction items as [|item items IH]; intros s.
  - cbn. by destruct (debug params); rewrite app_nil_r.
  - cbn [forOf]. rewrite bind_resolved by apply streamItem_resolves.
    rewrite IH. destruct item as [entry d|entry e]; cbn [streamItem successes].
    + rewrite dataListener_writes, <- app_assoc. by destruct (debug params).
    + done.
Qed.

Lemma startLog_writes (params : Params) (imp : ConfigImport) :
  debugWrites (startLog resolve params imp) = [].
Proof.
  unfold startLog. rewrite !debugWrites_app, debugWrites_map by done.
  by destruct imp as [? [|]|? ?].
Qed.

Lemma compile_writes_nothing (params : Params) (imp : ConfigImport) (pass : Pass)
    (session : WatchSession) s :
  debug params = false ->
  debugWrites
    (trace (snd (compile compileFile writeFile resolve params imp pass session s))) =
  debugWrites (trace s).
Proof.
  intros Hd.
  assert (Hw : forall items,
            debugWrites
              (trace (snd (forOf items (streamItem writeFile params)
                             (logged s (startLog resolve params imp))))) =
            debugWrites (trace s)).
  { intros items. rewrite streamItems_writes, Hd. cbn [logged trace].
    by rewrite debugWrites_app, startLog_writes, !app_nil_r. }
  destruct pass as [e|items|items].
  - rewrite compile_exact, coldBuild_exact.
    unfold reportFatal, logged, bind, console_error, emit, setExitCode.
    cbn [snd trace relationships collector world exitCode].
    rewrite !debugWrites_app, startLog_writes. cbn [debugWrites app].
    by rewrite !app_nil_r.
  - destruct (compile_drained params imp items session s) as (-> & _ & _ & _).
    rewrite coldBuild_exact.
    destruct (collector (snd (forOf items (streamItem writeFile params)
                                (logged s (startLog resolve params imp)))))
      as [|e0 errors] eqn:Hc.
    + destruct (reportAndWatch_spec params (entriesOf resolve params imp) session _ Hc)
        as (_ & -> & _).
      by rewrite Hw, Hd, app_nil_r.
    + rewrite reportAndWatch_errors by (rewrite Hc; done).
      cbn [snd trace]. rewrite debugWrites_app.
      change (ConsoleError MsgErrorsWhileCompiling :: ?l)
        with ([ConsoleError MsgErrorsWhileCompiling] ++ l).
      rewrite debugWrites_app, debugWrites_map by done. cbn [debugWrites app].
      by rewrite Hw, !app_nil_r.
  - destruct (compile_stalled params imp items session s) as [_ ->]. cbn [snd].
    rewrite coldBuild_exact.
    rewrite bind_resolved by (apply forOf_resolves; apply streamItem_resolves).
    cbn [pending snd]. apply Hw.
Qed.



(** Without [params.debug], [compile] writes no debug file: neither the
    listeners of the cold build nor [compile] itself nor watch mode call
    [writeFile], however the pass ends and whatever the watchers deliver. *)
Theorem compile_writes_only_under_debug (params : Params) (imp : ConfigImport)
    (pass : Pass) (session : WatchSession) s :
  debug params = false ->
  debugWrites
    (trace (snd (compile compileFile writeFile resolve params imp pass session s))) =
  debugWrites (trace s).
Proof. apply compile_writes_nothing. Qed.

(** With [params.debug] and a clean pass, a snapshot that cannot be written
    makes [compile] reject with the error of the write: nothing is logged
    after the attempt, watch mode is not entered even under [params.watch],
    and the exit code stays what it was. *)
Theorem compile_snapshot_failure (params : Params) (imp : ConfigImport)
    (items : list StreamItem) (session : WatchSession) (e : JsError) (w : World) s :
  let sp := snd (coldBuild writeFile resolve params imp (PassDrains items) s) in
  debug params = true ->
  collector s ++ failures items = [] ->
  writeFile (RelationshipsJson (relationships sp)) (world sp) = (Some e, w) ->
  compile compileFile writeFile resolve params imp (PassDrains items) session s =
  (Threw e,
   mkState (relationships sp) (collector sp) w
     (trace sp ++ [CallWriteFile (RelationshipsJson (relationships sp))])
     (exitCode s)).
Proof.
  cbn zeta. intros Hd Hc Hw.
  destruct (compile_drained params imp items session s) as (-> & Hcoll & Hexit & _).
  rewrite Hc in Hcoll. unfold reportAndWatch.
  unfold bind at 1. cbn [getErrorCollector]. rewrite Hcoll. cbn [hasErrors].
  unfold bind at 1. rewrite Hd. unfold bind at 1. cbn [getRelationships].
  unfold awaitWriteFile. rewrite Hw. by rewrite Hcoll, Hexit.
Qed.

(** A watch run from start to end, with [params.debug] off and the
    events of the watchers handled one after another. After a clean pass
    under [params.watch], with chokidar at hand and at least one root, the
    calls of [compileFile] of the whole run are, change event by change
    event, the dependents recorded by the cold build for the changed path:
    the cold build itself calls [compileFile] nowhere in [src/index.ts], and
    recompiles never change what later events invalidate. *)
Theorem compile_watch_calls (params : Params) (imp : ConfigImport)
    (items : list StreamItem) (session : WatchSession) s :
  watch params = true ->
  debug params = false ->
  collector s ++ failures items = [] ->
  chokidarImport session = None ->
  dir params <> [] ->
  let s' := snd (compile compileFile writeFile resolve params imp (PassDrains items)
                   session s) in
  compileCalls (trace s') =
  compileCalls (trace s) ++
  changeTargets
    (foldl (fun rel d => relationTracker d rel) (relationships s) (successes items))
    (events session).
Proof.
  intros Hwatch Hd Hc Himport Hdir. cbn zeta.
  destruct (compile_drained params imp items session s) as (-> & Hcoll & _ & Hcalls).
  rewrite Hc in Hcoll.
  destruct (reportAndWatch_spec params (entriesOf resolve params imp) session _ Hcoll)
    as (_ & _ & ->).
  rewrite Hcalls, Hwatch.
  assert (Hrel : relationships
                   (snd (coldBuild writeFile resolve params imp (PassDrains items) s)) =
                 foldl (fun rel d => relationTracker d rel) (relationships s)
                   (successes items)).
  { rewrite coldBuild_exact, streamItems_relationships by (intros Hd'; congruence).
    by rewrite Hwatch. }
  assert (Hsnap : snapshotWritten writeFile params
                    (snd (coldBuild writeFile resolve params imp (PassDrains items) s))
                  = true).
  { unfold snapshotWritten. by rewrite Hd. }
  assert (Hwatching : watching session (entriesOf resolve params imp) = true).
  { unfold watching, entriesOf. rewrite Himport. by destruct (dir params). }
  by rewrite Hsnap, Hwatching, Hrel.
Qed.

Lemma watchPatterns_app (t1 t2 : list Effect) :
  watchPatterns (t1 ++ t2) = watchPatterns t1 ++ watchPatterns t2.
Proof.
  induction t1 as [|e t1 IH]; [done|].
  destruct e; simpl; by rewrite ?IH.
Qed.

Lemma patternsKept_refl s : patternsKept s s.
Proof. done. Qed.

Lemma patternsKept_trans s1 s2 s3 :
  patternsKept s1 s2 -> patternsKept s2 s3 -> patternsKept s1 s3.
Proof. unfold patternsKept. congruence. Qed.

Ltac prim_patterns :=
  solve [ prim_open; unfold keeps; intros; unfold patternsKept;
          cbn [snd fst relationships collector world trace exitCode];
          rewrite ?watchPatterns_app; cbn [watchPatterns]; rewrite ?app_nil_r; done ].

Lemma events_patternsKept (evs : list (EntryConfig * WatchEvent)) :
  keeps patternsKept (forOf evs (fun ev => watchEvent compileFile (fst ev) (snd ev))).
Proof.
  apply (keeps_forOf _ patternsKept_refl patternsKept_trans). intros [entry ev].
  unfold watchEvent, changeHandler, recompile.
  keeps_go patternsKept_refl patternsKept_trans prim_patterns.
Qed.

(** With chokidar at hand, [enableWatchMode] starts exactly one watcher per
    entry, in the order of the entries, each on the pattern [**/*.scss]
    under the entry's source directory resolved against [params.context];
    no event and no shutdown adds or repeats a watcher. *)
Theorem watchers_started (params : Params) (entries : list EntryConfig)
    (session : WatchSession) s :
  chokidarImport session = None ->
  watchPatterns
    (trace (snd (enableWatchMode compileFile resolve params entries session s))) =
  watchPatterns (trace s) ++
  map (fun entry => resolve (resolve (context params) (srcRelative entry)) "**/*.scss")
      entries.
Proof.
  intros Himport.
  unfold enableWatchMode, tryCatch.
  unfold bind at 1. cbn [emit]. rewrite Himport.
  unfold bind at 1. cbn [ret]. unfold bind at 1. cbn [console_info emit].
  unfold bind at 1. rewrite forOf_emit.
  assert (Hstart : forall l : list EntryConfig,
            watchPatterns
              (map (fun entry =>
                      WatchStarted
                        (resolve (resolve (context params) (srcRelative entry)) "**/*.scss"))
                   l) =
            map (fun entry =>
                   resolve (resolve (context params) (srcRelative entry)) "**/*.scss") l).
  { intros l. induction l as [|x l IH]; [done|]. cbn. by rewrite IH. }
  destruct entries as [|entry entries].
  - cbn. rewrite !watchPatterns_app. cbn. by rewrite !app_nil_r.
  - rewrite bind_resolved by (apply forOf_resolves; intros ?; apply watchEvent_resolves).
    match goal with
    | |- context [forOf (events session) ?body ?s1] =>
        pose proof (events_patternsKept (events session) s1) as Hkept;
        set (s2 := snd (forOf (events session) body s1)) in *
    end.
    unfold patternsKept in Hkept. cbn [trace] in Hkept.
    rewrite !watchPatterns_app, Hstart in Hkept. cbn [watchPatterns] in Hkept.
    rewrite !app_nil_r in Hkept.
    assert (Hclosed : forall l : list EntryConfig,
              watchPatterns (map (fun entry => WatcherClosed entry) l) = []).
    { intros l. induction l as [|x l IH]; [done|]. exact IH. }
    destruct (sigint session).
    + rewrite forOf_emit. cbn [snd trace].
      by rewrite watchPatterns_app, Hclosed, app_nil_r.
    + done.
Qed.

(** After a drained cold build under [params.watch] with [params.debug]
    off, every unit that compiled is a dependent of every file it included:
    a later change of any of these files, the unit's own source among them
    when sass lists it, finds the unit. *)
Theorem coldBuild_records_includes (params : Params) (imp : ConfigImport)
    (items : list StreamItem) (d : PostcssPipeResult) (f : string) s :
  watch params = true ->
  debug params = false ->
  d ∈ successes items ->
  f ∈ includedFiles (stats (sassResult d)) ->
  from d ∈ dependentsOf
             (relationships (snd (coldBuild writeFile resolve params imp
                                    (PassDrains items) s))) f.
Proof.
  intros Hwatch Hdebug Hd Hf.
  rewrite coldBuild_exact, streamItems_relationships by (intros Hd'; congruence).
  rewrite Hwatch. apply elem_foldl_relationTracker. right. by exists d.
Qed.

End Laws.

(** ** The claims on the small project *)

(** C1: in watch mode a successful recompile does not record the fresh
    included-file set. With [app.scss] recorded as including [_base.scss], a
    change of [_base.scss] recompiles [app.scss]; the recompile succeeds and
    reports [_new.scss] among the included files; the table is exactly what
    it was, without a key for [_new.scss], where [relationTracker] on the
    fresh result would have recorded [app.scss] for it. *)
Theorem C1_recompile_does_not_record :
  let s := demoState (recorded [unitOf appScss [appScss; basePart]]) in
  let fresh := unitOf appScss [appScss; basePart; newPart] in
  let s' := snd (changeHandler compileDemo demoEntry basePart s) in
  dependentsOf (relationships s) basePart = [appScss] /\
  compileDemo appScss demoEntry tt = (inr fresh, tt) /\
  trace s' = [ConsoleInfo (MsgFileChanged basePart);
              CallCompileFile appScss demoEntry;
              ConsoleInfo (MsgUpdatedFile appScss)] /\
  relationships s' = relationships s /\
  relationships s' !! newPart = None /\
  relationTracker fresh (relationships s) !! newPart = Some [appScss].
Proof.
  cbn zeta. split; [by vm_compute|]. split; [by vm_compute|]. split; [by vm_compute|].
  split; [apply changeHandler_relationships|].
  split; [rewrite changeHandler_relationships|]; by vm_compute.
Qed.


(** ** The theorems at work on the small project *)


Lemma C3_change_recompiles_dependents_witness :
  let s := demoState (recorded [unitOf appScss [appScss; basePart]]) in
  let s' := snd (changeHandler compileDemo demoEntry otherScss s) in
  trace s' = trace s ++ [ConsoleInfo (MsgFileChanged otherScss)] /\
  recompiles (trace s') = recompiles (trace s) /\
  errorLines (trace s') = errorLines (trace s).
Proof.
  intros s.
  apply (proj2 (C3_change_recompiles_dependents compileDemo demoEntry otherScss s)
           [unitOf appScss [appScss; basePart]]).
  - reflexivity.
  - repeat constructor. apply (bool_decide_unpack _). vm_compute. exact I.
Defined.

Lemma C5_fan_out_witness :
  let dA := unitOf appScss [appScss; basePart] in
  let dB := unitOf otherScss [otherScss; basePart] in
  dependentsOf (relationTracker dB (relationTracker dA ∅)) basePart = [appScss; otherScss] /\
  dependentsOf (relationTracker dA (relationTracker dB ∅)) basePart = [otherScss; appScss].
Proof.
  intros dA dB. apply (C5_fan_out dA dB basePart ∅).
  - discriminate.
  - apply (bool_decide_unpack _). vm_compute. exact I.
  - apply (bool_decide_unpack _). vm_compute. exact I.
  - reflexivity.
Defined.

Lemma C6_failed_recompile_is_isolated_witness :
  let s := demoState (recorded [unitOf otherScss [otherScss; basePart];
                                unitOf appScss [appScss; basePart]]) in
  let r := changeHandler compileDemo demoEntry basePart s in
  fst r = Returned tt /\
  recompiles (trace (snd r)) = [otherScss; appScss] /\
  errorLines (trace (snd r)) = [MsgErrorWhenCompiling otherScss "Undefined variable"].
Proof.
  intros s.
  destruct (C6_failed_recompile_is_isolated compileDemo demoEntry basePart s
              [] otherScss [appScss] (mkJsError "Undefined variable") tt)
    as (Hhandler & _ & _).
  - reflexivity.
  - reflexivity.
  - cbn zeta. rewrite Hhandler. vm_compute. tauto.
Defined.

Lemma C8_additive_only_witness :
  let rel := recorded [unitOf appScss [appScss; basePart]] in
  appScss ∈ dependentsOf (relationTracker (unitOf appScss [appScss]) rel) basePart.
Proof.
  intros rel.
  apply (proj1 (C8_additive_only compileDemo writeOk demoResolve basePart appScss rel
                  ltac:(apply (bool_decide_unpack _); vm_compute; exact I))
           [unitOf appScss [appScss]]).
Defined.

Lemma C10_errors_stop_compile_witness :
  let r := compile compileDemo writeOk demoResolve (demoParams true true)
             (ConfigModule None None)
             (PassDrains [UnitCompiled demoEntry (unitOf appScss [appScss; basePart]);
                          UnitFailed demoEntry (mkJsError "Undefined variable")])
             (demoSession [(demoEntry, EvChange basePart)]) (demoState ∅) in
  fst r = Returned tt /\
  exitCode (snd r) = Some 2%Z /\
  List.filter isWatchEffect (trace (snd r)) = [] /\
  List.filter isSnapshotWrite (trace (snd r)) = [].
Proof.
  intros r.
  destruct (C10_errors_stop_compile compileDemo writeOk demoResolve (demoParams true true)
              (ConfigModule None None)
              [UnitCompiled demoEntry (unitOf appScss [appScss; basePart]);
               UnitFailed demoEntry (mkJsError "Undefined variable")]
              (demoSession [(demoEntry, EvChange basePart)]) (demoState ∅))
    as (Hr & Hwatch & Hsnap).
  - discriminate.
  - fold r in Hr, Hwatch, Hsnap.
    split; [by rewrite Hr|]. split; [by rewrite Hr|]. split; assumption.
Defined.

(** ** The further properties at work on the small project *)

Lemma indexOf_first_witness :
  ["a"; "b"; "a"; "b"] !! Z.to_nat (indexOf ["a"; "b"; "a"; "b"] "b") = Some "b"%string /\
  ["a"; "b"; "a"; "b"] !! 0%nat <> Some "b"%string.
Proof.
  destruct (indexOf_first ["a"; "b"; "a"; "b"] "b") as (_ & _ & Hfound).
  destruct Hfound as [Hat Hbefore]; [vm_compute; discriminate|].
  split; [exact Hat | apply Hbefore; vm_compute; lia].
Defined.

Lemma relationTracker_frame_witness :
  relationTracker (unitOf appScss [appScss; basePart])
    (recorded [unitOf otherScss [otherScss]]) !! otherScss = Some [otherScss].
Proof.
  rewrite (relationTracker_frame (unitOf appScss [appScss; basePart]) otherScss).
  - reflexivity.
  - apply (bool_decide_unpack _). vm_compute. exact I.
Defined.

Lemma mkEntry_no_colon_witness :
  mkEntry demoResolve (demoParams false false) demoConfig "styles" =
  mkEntryConfig "styles" "styles" "/p/styles" "/p/styles" demoConfig.
Proof.
  apply (mkEntry_no_colon demoResolve (demoParams false false) demoConfig "styles").
  reflexivity.
Defined.

Lemma mkEntry_colon_witness :
  mkEntry demoResolve (demoParams false false) demoConfig "styles:dist" = demoEntry /\
  mkEntry demoResolve (demoParams false false) demoConfig "styles:dist:more" = demoEntry /\
  outRelative (mkEntry demoResolve (demoParams false false) demoConfig "styles:") =
    ""%string.
Proof.
  destruct (mkEntry_colon demoResolve (demoParams false false) demoConfig "styles" "dist")
    as [Hone Hmore]; [reflexivity | reflexivity |].
  destruct (mkEntry_colon demoResolve (demoParams false false) demoConfig "styles" "")
    as [Hempty _]; [reflexivity | reflexivity |].
  split; [exact Hone|]. split; [exact (Hmore "more")|].
  exact (f_equal outRelative Hempty).
Defined.

Lemma watch_session_calls_witness :
  let s := demoState (recorded [unitOf appScss [appScss; basePart];
                                unitOf otherScss [otherScss; basePart]]) in
  let session := demoSession [(demoEntry, EvChange basePart);
                              (demoEntry, EvUnlink basePart);
                              (demoEntry, EvChange appScss)] in
  compileCalls
    (trace (snd (enableWatchMode compileDemo demoResolve (demoParams true false)
                   [demoEntry] session s))) =
  [(appScss, demoEntry); (otherScss, demoEntry); (appScss, demoEntry)].
Proof.
  intros s session.
  rewrite (watch_session_calls compileDemo demoResolve (demoParams true false)
             [demoEntry] session s).
  - reflexivity.
  - reflexivity.
  - discriminate.
Defined.

Lemma watch_import_failure_witness :
  let session := mkWatchSession (Some (mkJsError "Cannot find module"))
                   [(demoEntry, EvChange basePart)] true in
  let s := demoState (recorded [unitOf appScss [appScss; basePart]]) in
  compileCalls
    (trace (snd (enableWatchMode compileDemo demoResolve (demoParams true false)
                   [demoEntry] session s))) = [].
Proof.
  intros session s.
  rewrite (watch_import_failure compileDemo demoResolve (demoParams true false)
             [demoEntry] session (mkJsError "Cannot find module") s).
  - reflexivity.
  - reflexivity.
Defined.

Lemma debug_write_failure_skips_recording_witness :
  relationships
    (snd (streamItem writeRefused (demoParams true true)
            (UnitCompiled demoEntry (unitOf appScss [appScss; basePart]))
            (demoState ∅))) = ∅.
Proof.
  rewrite (debug_write_failure_skips_recording writeRefused (demoParams true true)
             demoEntry (unitOf appScss [appScss; basePart]) (mkJsError "EACCES") tt
             (demoState ∅)).
  - reflexivity.
  - reflexivity.
  - reflexivity.
Defined.

Lemma compile_fatal_witness :
  compile compileDemo writeOk demoResolve (demoParams true true) (ConfigModule None None)
    (PassRejects (mkJsError "ENOTDIR")) (demoSession []) (demoState ∅) =
  (Returned tt,
   mkState ∅ [] tt
     [ConsoleInfo (MsgOutputStyle expanded); ConsoleInfo (MsgSourceMap false);
      ConsoleInfo (MsgDirs "styles" "dist");
      ConsoleError (MsgErrorOccured "ENOTDIR"); ConsoleError MsgStack]
     (Some 1%Z)).
Proof.
  apply (compile_fatal compileDemo writeOk demoResolve (demoParams true true)
           (ConfigModule None None) (mkJsError "ENOTDIR") (demoSession [])
           "styles:dist" (demoState ∅)).
  reflexivity.
Defined.

Lemma compile_writes_only_under_debug_witness :
  debugWrites
    (trace (snd (compile compileDemo writeOk demoResolve (demoParams true false)
                   (ConfigModule None None)
                   (PassDrains [UnitCompiled demoEntry (unitOf appScss [appScss; basePart])])
                   (demoSession [(demoEntry, EvChange basePart)]) (demoState ∅)))) = [].
Proof.
  apply (compile_writes_only_under_debug compileDemo writeOk demoResolve
           (demoParams true false)).
  reflexivity.
Defined.

Lemma compile_snapshot_failure_witness :
  fst (compile compileDemo writeRefused demoResolve (demoParams true true)
         (ConfigModule None None)
         (PassDrains [UnitCompiled demoEntry (unitOf appScss [appScss; basePart])])
         (demoSession [(demoEntry, EvChange basePart)]) (demoState ∅)) =
  Threw (mkJsError "EACCES").
Proof.
  rewrite (compile_snapshot_failure compileDemo writeRefused demoResolve
             (demoParams true true) (ConfigModule None None)
             [UnitCompiled demoEntry (unitOf appScss [appScss; basePart])]
             (demoSession [(demoEntry, EvChange basePart)]) (mkJsError "EACCES") tt
             (demoState ∅)).
  - reflexivity.
  - reflexivity.
  - reflexivity.
  - reflexivity.
Defined.

Lemma compile_watch_calls_witness :
  compileCalls
    (trace (snd (compile compileDemo writeOk demoResolve (demoParams true false)
                   (ConfigModule None None)
                   (PassDrains [UnitCompiled demoEntry (unitOf appScss [appScss; basePart])])
                   (demoSession [(demoEntry, EvChange basePart)]) (demoState ∅)))) =
  [(appScss, demoEntry)].
Proof.
  apply (compile_watch_calls compileDemo writeOk demoResolve (demoParams true false)).
  - reflexivity.
  - reflexivity.
  - reflexivity.
  - reflexivity.
  - discriminate.
Defined.

Lemma watchers_started_witness :
  watchPatterns
    (trace (snd (enableWatchMode compileDemo demoResolve (demoParams true false)
                   [demoEntry] (demoSession [(demoEntry, EvChange basePart)])
                   (demoState ∅)))) =
  ["/p/styles/**/*.scss"].
Proof.
  apply (watchers_started compileDemo demoResolve (demoParams true false) [demoEntry]
           (demoSession [(demoEntry, EvChange basePart)]) (demoState ∅)).
  reflexivity.
Defined.

Lemma coldBuild_records_includes_witness :
  appScss ∈ dependentsOf
    (relationships
       (snd (coldBuild writeOk demoResolve (demoParams true false) (ConfigModule None None)
               (PassDrains [UnitFailed demoEntry (mkJsError "Undefined variable");
                            UnitCompiled demoEntry (unitOf appScss [appScss; basePart])])
               (demoState ∅))))
    basePart.
Proof.
  apply (coldBuild_records_includes writeOk demoResolve (demoParams true false)
           (ConfigModule None None)
           [UnitFailed demoEntry (mkJsError "Undefined variable");
            UnitCompiled demoEntry (unitOf appScss [appScss; basePart])]
           (unitOf appScss [appScss; basePart]) basePart (demoState ∅)).
  - reflexivity.
  - reflexivity.
  - cbn [successes]. left.
  - apply (bool_decide_unpack _). vm_compute. exact I.
Defined.
